(** * To-Do List command line tool: a shallow embedding of [index.js]

    The program keeps two documents in the working directory, [db.json]
    (an array of tasks) and [counter.json] (an object with one field
    [counter]), and offers the commands [add], [edit], [delete], [list] and
    [filter].  Every command reads through [readJSONFile] and writes with
    [fsPromises.writeFile (path, JSON.stringify (value, null, 4))].

    [JSON.stringify], [JSON.parse] and [parseInt] are built into the
    language; they are modelled after the ECMAScript specification, in the
    form in which the program calls them.

    Modelling choices.
    - A JavaScript string is a [string]: the character with code [n] stands
      for the code unit [n], so the model covers the strings whose code
      units are below 256.  A file holds a text of this kind.
    - A JavaScript number is a double.  The model holds the doubles that
      are integers between [-2^53] and [2^53]: there every integer is a
      double, and [number] is the type of these integers.  Adding or
      subtracting one rounds as a double does ([2^53 + 1] is [2^53]), and so
      does reading a numeral ([round_to_number]).  Fractions, exponents,
      negative zero and the numbers beyond [2^53] are outside the model.
    - A value read from a document is a [json] tree; the commands are
      dynamically typed over it, as the source is.
    - Whatever the model does not cover is reported by the outcome
      [Unmodelled] (by [PUnmodelled] in the parser), never by a guess. *)

From Stdlib Require Import Ascii String ZArith NArith List Lia.
From Stdlib Require Import Decimal DecimalN DecimalPos DecimalZ DecimalString.
From stdpp Require Import gmap strings.

Set Warnings "-register-all".

Import ListNotations.
Local Open Scope string_scope.
Local Open Scope list_scope.

(** ** Characters and texts *)

(** The characters written by their decimal code: ["034"] is the double
    quote, ["092"] the backslash, ["010"] the line feed, ["009"] the tab,
    ["013"] the carriage return, ["008"] backspace and ["012"] form feed. *)

Definition code (c : ascii) : N := N_of_ascii c.

Definition str_is_empty (s : string) : bool :=
  match s with EmptyString => true | String _ _ => false end.

(** ** Numbers *)

(** Up to [2^53] in absolute value every integer is a double; beyond, the
    doubles are two or more apart. *)
Definition two53 : Z := 9007199254740992.

Definition in_range (n : Z) : bool := ((- two53 <=? n) && (n <=? two53))%Z.

(** A number of the model: an integer in that range. *)
Record number : Type := Number {
  to_Z : Z;
  number_in_range : in_range to_Z = true
}.

Definition number_of (n : Z) : option number :=
  (if in_range n as b return (in_range n = b -> option number)
   then fun H => Some (Number n H) else fun _ => None) eq_refl.

(** The double that stands for the integer [m], which is the exact result
    of an addition or the value of a numeral: the nearest one, and of two
    that are equally near the one with the even significand.  Inside the
    range that is [m] itself; [2^53 + 1] lies halfway between the doubles
    [2^53] and [2^53 + 2] and goes to [2^53], and likewise on the negative
    side; every other integer goes to a double beyond the range, which the
    model does not hold. *)
Definition round_to_number (m : Z) : option number :=
  if (m =? two53 + 1)%Z then number_of two53
  else if (m =? - two53 - 1)%Z then number_of (- two53)
  else number_of m.

(** Numerals stand for numbers where a number is expected. *)
Definition number_of_int (i : Number.int) : option number :=
  match i with
  | Number.IntDecimal d => number_of (Z.of_int d)
  | Number.IntHexadecimal _ => None
  end.

Definition number_to_int (x : number) : Number.int :=
  Number.IntDecimal (Z.to_int (to_Z x)).

Declare Scope number_scope.
Delimit Scope number_scope with number.
Bind Scope number_scope with number.
Number Notation number number_of_int number_to_int : number_scope.

(** ** JSON values *)

Inductive json : Type :=
| JNull
| JBool (b : bool)
| JNum (n : number)
| JStr (s : string)
| JArr (l : list json)
| JObj (o : list (string * json)).

(** An object is the list of its own properties in the order in which
    JavaScript enumerates them: array-index keys first, by ascending index,
    then the other keys by time of creation. *)

Definition digit_of (c : ascii) : option (uint -> uint) :=
  match c with
  | "0"%char => Some D0 | "1"%char => Some D1 | "2"%char => Some D2
  | "3"%char => Some D3 | "4"%char => Some D4 | "5"%char => Some D5
  | "6"%char => Some D6 | "7"%char => Some D7 | "8"%char => Some D8
  | "9"%char => Some D9
  | _ => None
  end.

Definition is_digit (c : ascii) : bool :=
  match digit_of c with Some _ => true | None => false end.

(** The longest prefix of decimal digits, and what follows it. *)
Fixpoint read_digits (s : string) : uint * string :=
  match s with
  | String c s' =>
      match digit_of c with
      | Some d => let (u, r) := read_digits s' in (d u, r)
      | None => (Nil, s)
      end
  | EmptyString => (Nil, s)
  end.

Fixpoint string_of_uint (u : uint) : string :=
  match u with
  | Nil => ""
  | D0 u => String "0" (string_of_uint u)
  | D1 u => String "1" (string_of_uint u)
  | D2 u => String "2" (string_of_uint u)
  | D3 u => String "3" (string_of_uint u)
  | D4 u => String "4" (string_of_uint u)
  | D5 u => String "5" (string_of_uint u)
  | D6 u => String "6" (string_of_uint u)
  | D7 u => String "7" (string_of_uint u)
  | D8 u => String "8" (string_of_uint u)
  | D9 u => String "9" (string_of_uint u)
  end.

(** [0] alone, or digits that do not start with [0]. *)
Definition no_leading_zero (u : uint) : bool :=
  match u with
  | Nil => false
  | D0 Nil => true
  | D0 _ => false
  | _ => true
  end.

(** A property key is an array index when it is the canonical decimal
    numeral of an integer in [0, 2^32 - 2]. *)
Definition array_index (k : string) : option N :=
  match read_digits k with
  | (u, EmptyString) =>
      if no_leading_zero u && (N.of_uint u <=? 4294967294)%N
      then Some (N.of_uint u) else None
  | _ => None
  end.

Definition has_key (k : string) (o : list (string * json)) : bool :=
  existsb (fun p => String.eqb (fst p) k) o.

Fixpoint obj_replace (k : string) (v : json) (o : list (string * json))
  : list (string * json) :=
  match o with
  | [] => []
  | (k', v') :: o' =>
      if String.eqb k' k then (k', v) :: o' else (k', v') :: obj_replace k v o'
  end.

Fixpoint obj_insert_index (n : N) (k : string) (v : json)
  (o : list (string * json)) : list (string * json) :=
  match o with
  | [] => [(k, v)]
  | (k', v') :: o' =>
      match array_index k' with
      | Some n' =>
          if (n' <? n)%N then (k', v') :: obj_insert_index n k v o'
          else (k, v) :: o
      | None => (k, v) :: o
      end
  end.

(** [o[k] = v] on an ordinary object: an existing property keeps its place,
    a new one goes where the enumeration order puts it. *)
Definition obj_set (k : string) (v : json) (o : list (string * json))
  : list (string * json) :=
  if has_key k o then obj_replace k v o
  else match array_index k with
       | Some n => obj_insert_index n k v o
       | None => o ++ [(k, v)]
       end.

Fixpoint obj_get (k : string) (o : list (string * json)) : option json :=
  match o with
  | [] => None
  | (k', v) :: o' => if String.eqb k' k then Some v else obj_get k o'
  end.

(** ** [JSON.stringify (value, null, 4)] *)

Definition hex_digit (n : N) : ascii :=
  match n with
  | 0 => "0" | 1 => "1" | 2 => "2" | 3 => "3" | 4 => "4" | 5 => "5"
  | 6 => "6" | 7 => "7" | 8 => "8" | 9 => "9" | 10 => "a" | 11 => "b"
  | 12 => "c" | 13 => "d" | 14 => "e" | _ => "f"
  end%N%char.

(** One code unit inside a quoted string. *)
Definition escape_char (c : ascii) : string :=
  match c with
  | "008"%char => String "092" "b"
  | "009"%char => String "092" "t"
  | "010"%char => String "092" "n"
  | "012"%char => String "092" "f"
  | "013"%char => String "092" "r"
  | "034"%char => String "092" (String "034" "")
  | "092"%char => String "092" (String "092" "")
  | _ =>
      if (code c <? 32)%N
      then String "092"
             (String "u" (String "0" (String "0"
               (String (hex_digit (code c / 16))
                 (String (hex_digit (code c mod 16)) "")))))
      else String c ""
  end.

Fixpoint escape (s : string) : string :=
  match s with
  | EmptyString => ""
  | String c s' => escape_char c +:+ escape s'
  end.

Definition QuoteJSONString (s : string) : string :=
  String "034" (escape s +:+ String "034" "").

(** The decimal numeral of an integer. *)
Definition decimal (n : Z) : string :=
  match n with
  | Z0 => "0"
  | Zpos p => string_of_uint (Pos.to_uint p)
  | Zneg p => String "-" (string_of_uint (Pos.to_uint p))
  end.

(** [Number::toString]: an integer below [10^21] in absolute value is
    printed with all its digits, and every number of the model is one. *)
Definition Number_toString (x : number) : string := decimal (to_Z x).

Definition gap : string := "    ".

Definition line_break (indent : string) : string := String "010" indent.

(** The items of an array after the first one and the closing bracket; the
    members of an object after the first one and the closing brace.  [ser]
    prints an item at the inner indentation. *)
Section Items.
Variable ser : json -> string.
Variables inner indent : string.

Fixpoint more_items (l : list json) : string :=
  match l with
  | [] => line_break indent +:+ "]"
  | y :: l' => "," +:+ line_break inner +:+ ser y +:+ more_items l'
  end.

Fixpoint more_members (l : list (string * json)) : string :=
  match l with
  | [] => line_break indent +:+ "}"
  | (k, y) :: l' =>
      "," +:+ line_break inner +:+ QuoteJSONString k +:+ ": " +:+ ser y +:+
      more_members l'
  end.
End Items.

(** [SerializeJSONProperty] with the current indentation: an empty array is
    [[]], an empty object [{}]; otherwise one item per line, one [gap]
    deeper, separated by commas, and the closing bracket back on the
    current indentation. *)
Fixpoint SerializeJSONProperty (indent : string) (v : json) : string :=
  match v with
  | JNull => "null"
  | JBool true => "true"
  | JBool false => "false"
  | JNum n => Number_toString n
  | JStr s => QuoteJSONString s
  | JArr [] => "[]"
  | JArr (x :: xs) =>
      let inner := indent +:+ gap in
      "[" +:+ line_break inner +:+ SerializeJSONProperty inner x +:+
      more_items (SerializeJSONProperty inner) inner indent xs
  | JObj [] => "{}"
  | JObj ((k, x) :: xs) =>
      let inner := indent +:+ gap in
      "{" +:+ line_break inner +:+ QuoteJSONString k +:+ ": " +:+
      SerializeJSONProperty inner x +:+
      more_members (SerializeJSONProperty inner) inner indent xs
  end.

Definition JSON_stringify (v : json) : string := SerializeJSONProperty "" v.

(** ** [JSON.parse] *)

(** A parse either succeeds, or fails with a [SyntaxError], or meets a
    text the model does not cover (a number with a fraction or an exponent,
    [-0], an integer beyond the range of [number], an escape for a code
    unit above 255).  [PFuel] is the recursion bound
    reached; [JSON_parse_total] shows that [JSON_parse] never answers it. *)
Inductive presult (A : Type) : Type :=
| POk (a : A)
| PSyntax
| PUnmodelled
| PFuel.

Arguments POk {A} a.
Arguments PSyntax {A}.
Arguments PUnmodelled {A}.
Arguments PFuel {A}.

Definition pbind {A B : Type} (r : presult A) (k : A -> presult B) : presult B :=
  match r with
  | POk a => k a
  | PSyntax => PSyntax
  | PUnmodelled => PUnmodelled
  | PFuel => PFuel
  end.

(** JSON white space: tab, line feed, carriage return, space. *)
Definition is_json_ws (c : ascii) : bool :=
  match c with
  | "009"%char | "010"%char | "013"%char | " "%char => true
  | _ => false
  end.

Fixpoint skip_ws (s : string) : string :=
  match s with
  | String c s' => if is_json_ws c then skip_ws s' else s
  | EmptyString => s
  end.

Fixpoint strip_prefix (p s : string) : option string :=
  match p with
  | EmptyString => Some s
  | String c p' =>
      match s with
      | String d s' => if Ascii.eqb c d then strip_prefix p' s' else None
      | EmptyString => None
      end
  end.

Definition parse_literal (word : string) (v : json) (s : string)
  : presult (json * string) :=
  match strip_prefix word s with
  | Some r => POk (v, r)
  | None => PSyntax
  end.

(** The value of a hexadecimal digit, of either case: [0]-[9] have the
    codes 48 to 57, [A]-[F] 65 to 70, [a]-[f] 97 to 102. *)
Definition hex_value (c : ascii) : option N :=
  let n := code c in
  if (48 <=? n)%N && (n <=? 57)%N then Some (n - 48)%N
  else if (65 <=? n)%N && (n <=? 70)%N then Some (n - 55)%N
  else if (97 <=? n)%N && (n <=? 102)%N then Some (n - 87)%N
  else None.

Definition hex4 (h1 h2 h3 h4 : ascii) : option N :=
  match hex_value h1, hex_value h2, hex_value h3, hex_value h4 with
  | Some a, Some b, Some c, Some d => Some (((a * 16 + b) * 16 + c) * 16 + d)%N
  | _, _, _, _ => None
  end.

Definition pcons (c : ascii) (r : presult (string * string))
  : presult (string * string) :=
  pbind r (fun p => POk (String c (fst p), snd p)).

(** The characters of a string literal after its opening quote, up to and
    including the closing quote. *)
Fixpoint parse_chars (s : string) : presult (string * string) :=
  match s with
  | EmptyString => PSyntax
  | String c r =>
      if Ascii.eqb c "034" then POk ("", r)
      else if Ascii.eqb c "092" then
        match r with
        | EmptyString => PSyntax
        | String e r1 =>
            if Ascii.eqb e "034" then pcons "034" (parse_chars r1)
            else if Ascii.eqb e "092" then pcons "092" (parse_chars r1)
            else if Ascii.eqb e "/" then pcons "/" (parse_chars r1)
            else if Ascii.eqb e "b" then pcons "008" (parse_chars r1)
            else if Ascii.eqb e "f" then pcons "012" (parse_chars r1)
            else if Ascii.eqb e "n" then pcons "010" (parse_chars r1)
            else if Ascii.eqb e "r" then pcons "013" (parse_chars r1)
            else if Ascii.eqb e "t" then pcons "009" (parse_chars r1)
            else if Ascii.eqb e "u" then
              match r1 with
              | String h1 (String h2 (String h3 (String h4 r2))) =>
                  match hex4 h1 h2 h3 h4 with
                  | Some n =>
                      if (n <? 256)%N then pcons (ascii_of_N n) (parse_chars r2)
                      else PUnmodelled
                  | None => PSyntax
                  end
              | _ => PSyntax
              end
            else PSyntax
        end
      else if (code c <? 32)%N then PSyntax
      else pcons c (parse_chars r)
  end.

(** What may follow the integer part of a number: after [e] or [E], an
    optional sign and at least one digit. *)
Definition check_exponent (s : string) : presult unit :=
  let s1 := match s with
            | String c r =>
                if Ascii.eqb c "+" || Ascii.eqb c "-" then r else s
            | EmptyString => s
            end in
  match fst (read_digits s1) with
  | Nil => PSyntax
  | _ => PUnmodelled
  end.

Definition starts_exponent (s : string) : option string :=
  match s with
  | String c r => if Ascii.eqb c "e" || Ascii.eqb c "E" then Some r else None
  | EmptyString => None
  end.

(** A fraction or an exponent that is well formed leaves the model; one that
    is not is a syntax error; neither of them is an integer literal. *)
Definition number_tail (s : string) : presult unit :=
  match s with
  | String c r =>
      if Ascii.eqb c "." then
        let (fs, r1) := read_digits r in
        match fs with
        | Nil => PSyntax
        | _ => match starts_exponent r1 with
               | Some r2 => check_exponent r2
               | None => PUnmodelled
               end
        end
      else match starts_exponent s with
           | Some r2 => check_exponent r2
           | None => POk tt
           end
  | EmptyString => POk tt
  end.

(** The value of an integer literal is the double nearest to it; [-0] is
    negative zero. *)
Definition integer_value (neg : bool) (n : N) : presult number :=
  if neg && (n =? 0)%N then PUnmodelled
  else match round_to_number (if neg then - Z.of_N n else Z.of_N n) with
       | Some x => POk x
       | None => PUnmodelled
       end.

Definition parse_number (s : string) : presult (json * string) :=
  let (neg, s1) := match s with
                   | String c r => if Ascii.eqb c "-" then (true, r) else (false, s)
                   | EmptyString => (false, s)
                   end in
  let (ds, s2) := read_digits s1 in
  if no_leading_zero ds then
    pbind (number_tail s2) (fun _ =>
      pbind (integer_value neg (N.of_uint ds)) (fun x => POk (JNum x, s2)))
  else PSyntax.

(** Recursive descent.  [parse_value] expects its text to start at the
    value; [parse_elements] reads the elements of a non-empty array up to
    the closing bracket, [parse_members] the members of a non-empty object
    up to the closing brace, creating the properties with [obj_set] as
    [JSON.parse] does (a repeated key keeps its first place and its last
    value). *)
Fixpoint parse_value (fuel : nat) (s : string) : presult (json * string) :=
  match fuel with
  | O => PFuel
  | S f =>
      match s with
      | EmptyString => PSyntax
      | String c r =>
          if Ascii.eqb c "n" then parse_literal "ull" JNull r
          else if Ascii.eqb c "t" then parse_literal "rue" (JBool true) r
          else if Ascii.eqb c "f" then parse_literal "alse" (JBool false) r
          else if Ascii.eqb c "034" then
            pbind (parse_chars r) (fun p => POk (JStr (fst p), snd p))
          else if Ascii.eqb c "[" then
            match strip_prefix "]" (skip_ws r) with
            | Some r1 => POk (JArr [], r1)
            | None =>
                pbind (parse_elements f (skip_ws r))
                      (fun p => POk (JArr (fst p), snd p))
            end
          else if Ascii.eqb c "{" then
            match strip_prefix "}" (skip_ws r) with
            | Some r1 => POk (JObj [], r1)
            | None =>
                pbind (parse_members f (skip_ws r) [])
                      (fun p => POk (JObj (fst p), snd p))
            end
          else if Ascii.eqb c "-" || is_digit c then parse_number s
          else PSyntax
      end
  end
with parse_elements (fuel : nat) (s : string) : presult (list json * string) :=
  match fuel with
  | O => PFuel
  | S f =>
      pbind (parse_value f s) (fun p =>
        match skip_ws (snd p) with
        | String c r =>
            if Ascii.eqb c "," then
              pbind (parse_elements f (skip_ws r))
                    (fun q => POk (fst p :: fst q, snd q))
            else if Ascii.eqb c "]" then POk ([fst p], r)
            else PSyntax
        | EmptyString => PSyntax
        end)
  end
with parse_members (fuel : nat) (s : string) (acc : list (string * json))
  : presult (list (string * json) * string) :=
  match fuel with
  | O => PFuel
  | S f =>
      match strip_prefix (String "034" "") s with
      | None => PSyntax
      | Some r =>
          pbind (parse_chars r) (fun k =>
            match strip_prefix ":" (skip_ws (snd k)) with
            | None => PSyntax
            | Some r1 =>
                pbind (parse_value f (skip_ws r1)) (fun p =>
                  let acc' := obj_set (fst k) (fst p) acc in
                  match skip_ws (snd p) with
                  | String c r2 =>
                      if Ascii.eqb c "," then parse_members f (skip_ws r2) acc'
                      else if Ascii.eqb c "}" then POk (acc', r2)
                      else PSyntax
                  | EmptyString => PSyntax
                  end)
            end)
      end
  end.

(** The whole text is one value between optional white space. *)
Definition JSON_parse (text : string) : presult json :=
  pbind (parse_value (2 * String.length text + 2) (skip_ws text)) (fun p =>
    if str_is_empty (skip_ws (snd p)) then POk (fst p) else PSyntax).

(** ** Run-time values and the operators the program applies to them *)

(** What an expression of the program can evaluate to besides a value read
    from a document: [undefined] (a missing property, an option that was
    not given) and [NaN] (from [parseInt]). *)
Inductive jsval : Type :=
| JSUndefined
| JSNaN
| JSVal (v : json).

(** [a === b] where at least one side is a primitive: the program compares
    a property with a string, with the result of [parseInt] or with an
    option.  [NaN] is equal to nothing, and an array or an object is never
    identical to a primitive. *)
Definition strict_equals (a b : jsval) : bool :=
  match a, b with
  | JSUndefined, JSUndefined => true
  | JSVal JNull, JSVal JNull => true
  | JSVal (JBool x), JSVal (JBool y) => Bool.eqb x y
  | JSVal (JNum x), JSVal (JNum y) => (to_Z x =? to_Z y)%Z
  | JSVal (JStr x), JSVal (JStr y) => String.eqb x y
  | _, _ => false
  end.

(** White space that [parseInt] skips, among the code units below 256. *)
Definition is_str_ws (c : ascii) : bool :=
  match c with
  | "009"%char | "010"%char | "011"%char | "012"%char | "013"%char
  | " "%char | "160"%char => true
  | _ => false
  end.

Fixpoint trim_start (s : string) : string :=
  match s with
  | String c s' => if is_str_ws c then trim_start s' else s
  | EmptyString => s
  end.

Definition digit_value (radix : N) (c : ascii) : option N :=
  match hex_value c with
  | Some d => if (d <? radix)%N then Some d else None
  | None => None
  end.

(** The value of the longest prefix of digits of the radix; [acc] is [None]
    as long as no digit was read. *)
Fixpoint read_int (radix : N) (s : string) (acc : option N) : option N :=
  match s with
  | String c r =>
      match digit_value radix c with
      | Some d =>
          read_int radix r
            (Some (match acc with Some a => a * radix + d | None => d end)%N)
      | None => acc
      end
  | EmptyString => acc
  end.

(** [parseInt (s)] without a radix: leading white space, an optional sign,
    an optional [0x] or [0X] that selects radix 16, then digits; what
    follows the digits is ignored, and no digit at all gives [NaN].  The
    result is the double nearest to the integer that the digits denote;
    [None] when that is negative zero or lies beyond the range of
    [number]. *)
Definition parseInt (s : string) : option jsval :=
  let s0 := trim_start s in
  let (negative, s1) :=
    match s0 with
    | String c r =>
        if Ascii.eqb c "-" then (true, r)
        else if Ascii.eqb c "+" then (false, r)
        else (false, s0)
    | EmptyString => (false, s0)
    end in
  let (radix, s2) :=
    match s1 with
    | String c (String x r) =>
        if Ascii.eqb c "0" && (Ascii.eqb x "x" || Ascii.eqb x "X")
        then (16%N, r) else (10%N, s1)
    | _ => (10%N, s1)
    end in
  match read_int radix s2 None with
  | None => Some JSNaN
  | Some n =>
      if negative && (n =? 0)%N then None
      else option_map (fun x => JSVal (JNum x))
             (round_to_number (if negative then - Z.of_N n else Z.of_N n))
  end.

(** The value of a command line option that takes an optional argument
    ([-s, --status [value]]): not given, given without a value ([true]), or
    given with a string. *)
Inductive optval : Type :=
| OptAbsent
| OptFlag
| OptStr (s : string).

Definition opt_truthy (o : optval) : bool :=
  match o with
  | OptAbsent => false
  | OptFlag => true
  | OptStr s => negb (str_is_empty s)
  end.

Definition opt_value (o : optval) : jsval :=
  match o with
  | OptAbsent => JSUndefined
  | OptFlag => JSVal (JBool true)
  | OptStr s => JSVal (JStr s)
  end.

(** ['' + v], which [chalk] applies to its argument. *)
Fixpoint to_text (v : json) : string :=
  match v with
  | JNull => "null"
  | JBool true => "true"
  | JBool false => "false"
  | JNum n => Number_toString n
  | JStr s => s
  | JArr l =>
      let item (x : json) : string :=
        match x with JNull => "" | _ => to_text x end in
      match l with
      | [] => ""
      | x :: xs =>
          item x +:+
          (fix more (l : list json) : string :=
             match l with
             | [] => ""
             | y :: l' => "," +:+ item y +:+ more l'
             end) xs
      end
  | JObj _ => "[object Object]"
  end.

Fixpoint chars_from (i : nat) (s : string) : list (string * json) :=
  match s with
  | EmptyString => []
  | String c s' =>
      (decimal (Z.of_nat i), JStr (String c "")) :: chars_from (S i) s'
  end.

Fixpoint items_from (i : nat) (l : list json) : list (string * json) :=
  match l with
  | [] => []
  | x :: l' => (decimal (Z.of_nat i), x) :: items_from (S i) l'
  end.

(** [for (let key in v)] together with [v[key]]: the own enumerable
    properties; a number and a boolean have none. *)
Definition for_in (v : json) : list (string * json) :=
  match v with
  | JObj o => o
  | JArr l => items_from 0 l
  | JStr s => chars_from 0 s
  | _ => []
  end.

(** ** The file system, the console and the monad of the commands *)

Inductive error : Type :=
| SyntaxError
| TypeError
| SystemError (code : string).

(** [error.code]: set on the errors of [fs], [undefined] on the others. *)
Definition error_code (e : error) : jsval :=
  match e with
  | SystemError c => JSVal (JStr c)
  | _ => JSUndefined
  end.

(** A path names a regular file with its text, or something that answers
    every access with a system error ([EISDIR], [EACCES], ...); a path
    outside the map does not exist. *)
Inductive node : Type :=
| File (content : string)
| Faulty (code : string).

Inductive colour : Type :=
| Yellow | Green | Red | RedBright | Blue | YellowBright.

(** An argument of [console.log] or [console.error]: a string made of
    pieces, each plain or coloured by [chalk]; a value; a caught error. *)
Inductive printed : Type :=
| Text (pieces : list (option colour * string))
| Value (v : json)
| Caught (e : error).

Inductive event : Type :=
| EWrite (path data : string)
| ELog (args : list printed)
| EError (args : list printed).

Record world : Type := World {
  files : gmap string node;
  events : list event
}.

Inductive outcome (A : Type) : Type :=
| Ret (a : A)
| Throw (e : error)
| Unmodelled.

Arguments Ret {A} a.
Arguments Throw {A} e.
Arguments Unmodelled {A}.

Definition M (A : Type) : Type := world -> outcome A * world.

Definition ret {A : Type} (a : A) : M A := fun w => (Ret a, w).

Definition throw {A : Type} (e : error) : M A := fun w => (Throw e, w).

Definition unmodelled {A : Type} : M A := fun w => (Unmodelled, w).

Definition bind {A B : Type} (m : M A) (k : A -> M B) : M B :=
  fun w =>
    match m w with
    | (Ret a, w') => k a w'
    | (Throw e, w') => (Throw e, w')
    | (Unmodelled, w') => (Unmodelled, w')
    end.

(** [try { m } catch (error) { handler }] *)
Definition try_catch {A : Type} (m : M A) (handler : error -> M A) : M A :=
  fun w =>
    match m w with
    | (Throw e, w') => handler e w'
    | r => r
    end.

Declare Scope js_scope.
Delimit Scope js_scope with js.
Notation "x <- m ;; k" := (bind m (fun x => k))
  (at level 100, m at next level, right associativity) : js_scope.
Notation "m ;; k" := (bind m (fun _ => k))
  (at level 100, right associativity) : js_scope.
Local Open Scope js_scope.

Definition emit (e : event) : M unit :=
  fun w => (Ret tt, World (files w) (events w ++ [e])).

Definition console_log (args : list printed) : M unit := emit (ELog args).

Definition console_error (args : list printed) : M unit := emit (EError args).

Definition chalk (c : colour) (s : string) : printed := Text [(Some c, s)].

(** [fsPromises.readFile (path, "utf-8")] *)
Definition readFile (path : string) : M string :=
  fun w =>
    match files w !! path with
    | Some (File content) => (Ret content, w)
    | Some (Faulty c) => (Throw (SystemError c), w)
    | None => (Throw (SystemError "ENOENT"), w)
    end.

(** [fsPromises.writeFile (path, data)]: the file is created or replaced as
    a whole. *)
Definition writeFile (path data : string) : M unit :=
  emit (EWrite path data) ;;
  fun w =>
    match files w !! path with
    | Some (Faulty c) => (Throw (SystemError c), w)
    | _ => (Ret tt, World (<[path := File data]> (files w)) (events w))
    end.

Definition JSON_parse_M (text : string) : M json :=
  match JSON_parse text with
  | POk v => ret v
  | PSyntax => throw SyntaxError
  | PUnmodelled | PFuel => unmodelled
  end.

(** [readJSONFile], lines 18 to 30. *)
Definition readJSONFile (filePath : string) (defaultValue : json) : M json :=
  try_catch
    (data <- readFile filePath ;;
     if str_is_empty data then ret defaultValue
     else JSON_parse_M data)
    (fun error =>
       if strict_equals (error_code error) (JSVal (JStr "ENOENT"))
       then ret defaultValue
       else throw error).

(** Reading one of the properties [id], [title], [status], [counter], none
    of which is inherited or built in: [null] has no properties at all, an
    object has its own ones, every other value answers [undefined]. *)
Definition get_prop (v : json) (k : string) : M jsval :=
  match v with
  | JNull => throw TypeError
  | JObj o =>
      ret (match obj_get k o with Some x => JSVal x | None => JSUndefined end)
  | _ => ret JSUndefined
  end.

(** [v[k] = x] in strict mode (the program is a module). *)
Definition set_prop (v : json) (k : string) (x : json) : M json :=
  match v with
  | JObj o => ret (JObj (obj_set k x o))
  | JArr _ => unmodelled
  | _ => throw TypeError
  end.

(** A method of arrays called on something else is the call of
    [undefined], or a property read on [null]. *)
Definition as_array (v : json) : M (list json) :=
  match v with
  | JArr l => ret l
  | _ => throw TypeError
  end.

(** [l.some (p)] *)
Fixpoint some_loop (p : json -> M bool) (l : list json) : M bool :=
  match l with
  | [] => ret false
  | x :: l' => b <- p x ;; if b then ret true else some_loop p l'
  end.

Definition Array_some (p : json -> M bool) (v : json) : M bool :=
  l <- as_array v ;; some_loop p l.

(** [l.findIndex (p)]; [None] stands for [-1]. *)
Fixpoint findIndex_loop (p : json -> M bool) (l : list json) (i : nat)
  : M (option nat) :=
  match l with
  | [] => ret None
  | x :: l' => b <- p x ;; if b then ret (Some i) else findIndex_loop p l' (S i)
  end.

Definition Array_findIndex (p : json -> M bool) (v : json) : M (option nat) :=
  l <- as_array v ;; findIndex_loop p l 0.

(** [l.forEach (f)] *)
Fixpoint forEach_loop (f : json -> M unit) (l : list json) : M unit :=
  match l with
  | [] => ret tt
  | x :: l' => f x ;; forEach_loop f l'
  end.

Definition Array_forEach (f : json -> M unit) (v : json) : M unit :=
  l <- as_array v ;; forEach_loop f l.

(** [l.filter (p)]: the elements for which the callback answers a truthy
    value, in order. *)
Fixpoint filter_loop (p : json -> M bool) (l : list json) : M (list json) :=
  match l with
  | [] => ret []
  | x :: l' =>
      b <- p x ;;
      kept <- filter_loop p l' ;;
      ret (if b then x :: kept else kept)
  end.

Definition Array_filter (p : json -> M bool) (v : json) : M json :=
  l <- as_array v ;; kept <- filter_loop p l ;; ret (JArr kept).

(** [l.push (x)] *)
Definition Array_push (v x : json) : M json :=
  l <- as_array v ;; ret (JArr (l ++ [x])).

(** [l.splice (i, 1)] for an index inside the array. *)
Definition Array_splice1 (v : json) (i : nat) : M json :=
  l <- as_array v ;; ret (JArr (take i l ++ drop (S i) l)).

(** [v[i].k = x] *)
Definition set_element_prop (v : json) (i : nat) (k : string) (x : json) : M json :=
  l <- as_array v ;;
  match l !! i with
  | Some element => element' <- set_prop element k x ;; ret (JArr (<[i := element']> l))
  | None => throw TypeError
  end.

(** A result that the model may not cover. *)
Definition modelled {A : Type} (o : option A) : M A :=
  match o with
  | Some a => ret a
  | None => unmodelled
  end.

(** [ctr.counter++] and [ctr.counter--]: [delta] is [1] or [-1], and the
    new value is the sum as a double.  A counter that is not a number would
    first be converted to one, which the model does not follow. *)
Definition step_counter (ctr : json) (delta : Z) : M json :=
  c <- get_prop ctr "counter" ;;
  match c with
  | JSVal (JNum n) =>
      n' <- modelled (round_to_number (to_Z n + delta)) ;;
      set_prop ctr "counter" (JNum n')
  | _ => unmodelled
  end.

Definition js_to_json (v : jsval) : M json :=
  match v with
  | JSVal x => ret x
  | _ => unmodelled
  end.

(** An object literal [{ k1: v1, ... }] with keys that are not indices. *)
Fixpoint object_literal (fields : list (string * jsval)) : M (list (string * json)) :=
  match fields with
  | [] => ret []
  | (k, v) :: fields' =>
      x <- js_to_json v ;;
      o <- object_literal fields' ;;
      ret ((k, x) :: o)
  end.

(** ** The commands *)

Definition db_json : string := "db.json".
Definition counter_json : string := "counter.json".

(** The default values handed to [readJSONFile]: [[]] and [{ counter: 0 }]. *)
Definition empty_db : json := JArr [].
Definition zero_counter : json := JObj [("counter", JNum 0)].

Record add_options : Type := AddOptions {
  add_title : string;
  add_status : optval
}.

(** [(task) => task.title === options.title] *)
Definition has_title (title : string) (task : json) : M bool :=
  t <- get_prop task "title" ;;
  ret (strict_equals t (JSVal (JStr title))).

(** [(task) => task.id === parseInt (options.id)] *)
Definition has_id (id : string) (task : json) : M bool :=
  i <- get_prop task "id" ;;
  n <- modelled (parseInt id) ;;
  ret (strict_equals i n).

Definition msg_exists : string := "This task already exists in your To-Do list!".
Definition msg_added : string := "Task added successfully!".
Definition msg_add_failed : string := "Error occurred while adding the task:".
Definition msg_not_found : string := "Task with the given ID not found!".
Definition msg_updated : string := "Task updated successfully!".
Definition msg_edit_failed : string := "Error occurred while editing the task:".
Definition msg_delete_failed : string := "Error occurred while deleting the task:".
Definition msg_current : string := "Current DB:".
Definition separator : string := "==============================================".

(** [catch (error) { console.error (chalk.red (msg)); console.error (error); }] *)
Definition report (msg : string) (e : error) : M unit :=
  console_error [chalk Red msg] ;;
  console_error [Caught e].

(** The action of [add], lines 48 to 90. *)
Definition add (options : add_options) : M unit :=
  try_catch
    (db <- readJSONFile db_json empty_db ;;
     taskExists <- Array_some (has_title (add_title options)) db ;;
     if taskExists then console_log [chalk Yellow msg_exists]
     else
       ctr <- readJSONFile counter_json zero_counter ;;
       ctr <- step_counter ctr 1 ;;
       let status := if opt_truthy (add_status options)
                     then add_status options else OptStr "todo" in
       id <- get_prop ctr "counter" ;;
       task <- object_literal [("id", id);
                               ("title", JSVal (JStr (add_title options)));
                               ("status", opt_value status)] ;;
       db <- Array_push db (JObj task) ;;
       console_log [Value db] ;;
       writeFile counter_json (JSON_stringify ctr) ;;
       writeFile db_json (JSON_stringify db) ;;
       console_log [chalk Green msg_added])
    (report msg_add_failed).

Record edit_options : Type := EditOptions {
  edit_title : string;
  edit_id : string;
  edit_status : optval
}.

(** The action of [edit], lines 102 to 130. *)
Definition edit (options : edit_options) : M unit :=
  try_catch
    (db <- readJSONFile db_json empty_db ;;
     taskIndex <- Array_findIndex (has_id (edit_id options)) db ;;
     match taskIndex with
     | None => console_log [chalk Red msg_not_found]
     | Some i =>
         db <- (if negb (str_is_empty (edit_title options))
                then set_element_prop db i "title" (JStr (edit_title options))
                else ret db) ;;
         db <- (if opt_truthy (edit_status options)
                then x <- js_to_json (opt_value (edit_status options)) ;;
                     set_element_prop db i "status" x
                else ret db) ;;
         writeFile db_json (JSON_stringify db) ;;
         console_log [chalk Green msg_updated] ;;
         console_log [Text [(None, msg_current)]; Value db]
     end)
    (report msg_edit_failed).

Record delete_options : Type := DeleteOptions {
  delete_id : string
}.

(** The action of [delete], lines 137 to 169. *)
Definition delete (options : delete_options) : M unit :=
  try_catch
    (db <- readJSONFile db_json empty_db ;;
     taskIndex <- Array_findIndex (has_id (delete_id options)) db ;;
     match taskIndex with
     | None => console_log [chalk Red msg_not_found]
     | Some i =>
         db <- Array_splice1 db i ;;
         ctr <- readJSONFile counter_json zero_counter ;;
         ctr <- step_counter ctr (-1) ;;
         writeFile db_json (JSON_stringify db) ;;
         writeFile counter_json (JSON_stringify ctr) ;;
         console_log [chalk Green msg_updated] ;;
         console_log [Text [(None, msg_current)]; Value db]
     end)
    (report msg_delete_failed).

(** The action of [list], lines 175 to 180; it has no [try]. *)
Definition list_tasks : M unit :=
  db <- readJSONFile db_json empty_db ;;
  Array_forEach (fun element => console_log [Value element]) db.

(** The option [-s, --status <string>] of [filter]: not given, or a string. *)
Record filter_options : Type := FilterOptions {
  filter_status : option string
}.

Definition filter_wanted (options : filter_options) : jsval :=
  match filter_status options with
  | Some s => JSVal (JStr s)
  | None => JSUndefined
  end.

(** One line [key: value] of the display of a task. *)
Definition field_line (entry : string * json) : event :=
  ELog [Text [(Some RedBright, fst entry); (None, ": ");
              (Some Blue, to_text (snd entry))]].

Fixpoint for_entries (f : string * json -> M unit) (l : list (string * json)) : M unit :=
  match l with
  | [] => ret tt
  | e :: l' => f e ;; for_entries f l'
  end.

(** The callback of [db.filter], lines 191 to 202: it prints the element
    when the status matches and returns nothing, that is a falsy value. *)
Definition filter_callback (options : filter_options) (element : json) : M bool :=
  s <- get_prop element "status" ;;
  (if strict_equals s (filter_wanted options)
   then for_entries (fun e => emit (field_line e)) (for_in element) ;;
        console_log [chalk YellowBright separator]
   else ret tt) ;;
  ret false.

(** The action of [filter], lines 189 to 203; it has no [try], and the
    array that [db.filter] returns is dropped. *)
Definition filter_tasks (options : filter_options) : M unit :=
  db <- readJSONFile db_json empty_db ;;
  Array_filter (filter_callback options) db ;;
  ret tt.

(** * Notions used in the statements *)

(** ** Values that are printed and read back *)

(** Induction over values, with the hypothesis for every item of an array
    and every member of an object. *)
Section JsonInduction.
Variable P : json -> Prop.
Hypothesis HNull : P JNull.
Hypothesis HBool : forall b, P (JBool b).
Hypothesis HNum : forall n, P (JNum n).
Hypothesis HStr : forall s, P (JStr s).
Hypothesis HArr : forall l, Forall P l -> P (JArr l).
Hypothesis HObj : forall o, Forall (fun p => P (snd p)) o -> P (JObj o).

Fixpoint json_nested_ind (v : json) : P v :=
  match v with
  | JNull => HNull
  | JBool b => HBool b
  | JNum n => HNum n
  | JStr s => HStr s
  | JArr l =>
      HArr l ((fix items (l : list json) : Forall P l :=
                 match l with
                 | [] => @List.Forall_nil _ P
                 | x :: l' => @List.Forall_cons _ P x l' (json_nested_ind x) (items l')
                 end) l)
  | JObj o =>
      HObj o ((fix members (o : list (string * json))
                 : Forall (fun p => P (snd p)) o :=
                 match o with
                 | [] => @List.Forall_nil _ _
                 | p :: o' =>
                     @List.Forall_cons _ _ p o' (json_nested_ind (snd p)) (members o')
                 end) o)
  end.
End JsonInduction.

(** The values that [JSON.stringify] and [JSON.parse] carry back and forth
    unchanged in this model: every object has distinct keys, none of them an
    array index (an index key would be moved to the front). *)
Inductive plain_json : json -> Prop :=
| plain_null : plain_json JNull
| plain_bool b : plain_json (JBool b)
| plain_num n : plain_json (JNum n)
| plain_str s : plain_json (JStr s)
| plain_arr l : Forall plain_json l -> plain_json (JArr l)
| plain_obj o :
    NoDup (map fst o) ->
    Forall (fun p => array_index (fst p) = None /\ plain_json (snd p)) o ->
    plain_json (JObj o).

(** The text after an integer literal does not continue the number. *)
Definition ends_number (rest : string) : bool :=
  match rest with
  | EmptyString => true
  | String c _ =>
      negb (is_digit c || Ascii.eqb c "." || Ascii.eqb c "e" || Ascii.eqb c "E")
  end.

(** The first character of a printed value starts no white space and closes
    no bracket. *)
Definition value_start (c : ascii) : bool :=
  negb (is_json_ws c || Ascii.eqb c "]" || Ascii.eqb c "}").

(** An indentation is white space. *)
Definition all_ws (indent : string) : Prop :=
  forall s, skip_ws (indent +:+ s) = skip_ws s.

(** [v], printed at any indentation and followed by any text that does not
    continue a number, is read back with that text left over, as soon as the
    recursion bound is large enough. *)
Definition reads_back (v : json) : Prop :=
  forall indent rest, all_ws indent -> ends_number rest = true ->
  exists f0, forall f, f0 <= f ->
    parse_value f (SerializeJSONProperty indent v +:+ rest) = POk (v, rest).

(** ** Tasks, and what a world stores *)

(** A task of the data model: an integer id, a title and a status. *)
Record task : Type := Task {
  task_id : number;
  task_title : string;
  task_status : string
}.

Definition task_json (t : task) : json :=
  JObj [("id", JNum (task_id t)); ("title", JStr (task_title t));
        ("status", JStr (task_status t))].

Definition tasks_json (l : list task) : json := JArr (map task_json l).

Definition counter_doc (c : number) : json := JObj [("counter", JNum c)].

(** [loads w path default v]: in the world [w], [readJSONFile (path,
    default)] returns [v]. *)
Definition loads (w : world) (path : string) (default v : json) : Prop :=
  readJSONFile path default w = (Ret v, w).

Definition stored_tasks (w : world) (l : list task) : Prop :=
  loads w db_json empty_db (tasks_json l).

Definition stored_counter (w : world) (c : number) : Prop :=
  loads w counter_json zero_counter (counter_doc c).

(** No system error stands in the way of writing the path. *)
Definition writable (w : world) (path : string) : Prop :=
  forall c, files w !! path <> Some (Faulty c).

(** The calls of [writeFile] among the events, in order. *)
Fixpoint writes (evs : list event) : list (string * string) :=
  match evs with
  | [] => []
  | EWrite path data :: evs' => (path, data) :: writes evs'
  | _ :: evs' => writes evs'
  end.

(** The world after some more console output and nothing else. *)
Definition said (w : world) (out : list event) : world :=
  World (files w) (events w ++ out).

(** The status that [add] stores: the one given, and ["todo"] when the
    option is falsy, that is absent or the empty string. *)
Definition added_status (st : optval) : json :=
  match st with
  | OptAbsent => JStr "todo"
  | OptFlag => JBool true
  | OptStr s => if str_is_empty s then JStr "todo" else JStr s
  end.

Definition new_task (id : number) (title : string) (status : json) : json :=
  JObj [("id", JNum id); ("title", JStr title); ("status", status)].

(** What [list] prints for a task: the task as a value. *)
Definition listed (t : task) : event := ELog [Value (task_json t)].

(** The decimal numeral of an integer, as the Standard Library writes it. *)
Definition numeral (n : Z) : string := NilZero.string_of_int (Z.to_int n).

(** What [filter] prints for a task: a line for the id, one for the title
    and one for the status, in this order, each with the name in bright
    red, a colon and a space, and the value in blue; then a line of 46
    equals signs in bright yellow. *)
Definition shown (t : task) : list event :=
  [ELog [Text [(Some RedBright, "id"); (None, ": ");
               (Some Blue, numeral (to_Z (task_id t)))]];
   ELog [Text [(Some RedBright, "title"); (None, ": ");
               (Some Blue, task_title t)]];
   ELog [Text [(Some RedBright, "status"); (None, ": ");
               (Some Blue, task_status t)]];
   ELog [Text [(Some YellowBright,
                "==============================================")]]].

(** What a command prints when it catches [e]. *)
Definition reported (msg : string) (e : error) : list event :=
  [EError [chalk Red msg]; EError [Caught e]].

(** ** Notions for the further properties *)

(** The task [t] after [edit]: the id is kept; the title is replaced when
    the given one is not empty; the status is replaced when the option is
    truthy, by [true] when it came without a value. *)
Definition edited_task (t : task) (options : edit_options) : json :=
  new_task (task_id t)
    (if str_is_empty (edit_title options) then task_title t else edit_title options)
    (match edit_status options with
     | OptAbsent => JStr (task_status t)
     | OptFlag => JBool true
     | OptStr s => if str_is_empty s then JStr (task_status t) else JStr s
     end).

(** [m] changes no file and issues no write, whatever it answers. *)
Definition read_only {A : Type} (m : M A) : Prop :=
  forall w,
    files (snd (m w)) = files w /\
    writes (events (snd (m w))) = writes (events w).

(** How the five commands end when the work on [db.json] throws [e] before
    anything is written: [add], [edit] and [delete] print [e] and resolve,
    [list] and [filter] are rejected with [e]; the files are untouched. *)
Definition all_fail_with (w : world) (e : error) : Prop :=
  (forall options, add options w = (Ret tt, said w (reported msg_add_failed e))) /\
  (forall options, edit options w = (Ret tt, said w (reported msg_edit_failed e))) /\
  (forall options, delete options w = (Ret tt, said w (reported msg_delete_failed e))) /\
  list_tasks w = (Throw e, w) /\
  (forall options, filter_tasks options w = (Throw e, w)).

Definition is_array (v : json) : bool :=
  match v with JArr _ => true | _ => false end.

(** The task that [add] appends with the id [id], when the status did not
    come as a bare flag. *)
Definition added_task (id : number) (options : add_options) : task :=
  Task id (add_title options)
       (match add_status options with
        | OptStr s => if str_is_empty s then "todo" else s
        | _ => "todo"
        end).

(** The tasks that a sequence of [add] appends, given the ids in order. *)
Fixpoint added_tasks (ids : list number) (l : list add_options) : list task :=
  match ids, l with
  | id :: ids', options :: l' => added_task id options :: added_tasks ids' l'
  | _, _ => []
  end.

(** The integers [c + 1], ..., [c + n]. *)
Fixpoint following (c : Z) (n : nat) : list Z :=
  match n with
  | O => []
  | S n' => (c + 1)%Z :: following (c + 1) n'
  end.

(** One invocation of [add] after the other. *)
Fixpoint add_all (l : list add_options) : M unit :=
  match l with
  | [] => ret tt
  | options :: l' => add options ;; add_all l'
  end.

(** The text after the numeral of [n] neither continues it with a digit
    nor, after a lone [0], turns it into a hexadecimal prefix. *)
Definition ends_decimal (n : Z) (rest : string) : bool :=
  match rest with
  | EmptyString => true
  | String c _ =>
      negb (is_digit c) &&
      negb ((n =? 0)%Z && (Ascii.eqb c "x" || Ascii.eqb c "X"))
  end.

(** The first character opens a hexadecimal prefix. *)
Definition starts_hex_mark (s : string) : bool :=
  match s with
  | String x _ => Ascii.eqb x "x" || Ascii.eqb x "X"
  | EmptyString => false
  end.

(** A task document that holds an object, one that cannot be read, one
    that holds a blank. *)
Definition object_world : world := World {[ db_json := File "{}" ]} [].

Definition unreadable_world : world := World {[ db_json := Faulty "EISDIR" ]} [].

Definition blank_world : world := World {[ db_json := File " " ]} [].

(** ** Sample stores *)

Definition sample_tasks : list task :=
  [Task 1 "A" "todo"; Task 2 "B" "done"].

(** Two tasks and the counter at 2, each document as [add] writes it. *)
Definition sample_world : world :=
  World {[ db_json := File (JSON_stringify (tasks_json sample_tasks));
           counter_json := File (JSON_stringify (counter_doc 2)) ]} [].

(** No document yet. *)
Definition empty_world : world := World ∅ [].

(** A task document cut short. *)
Definition broken_world : world := World {[ db_json := File "[{" ]} [].

(** One task and the counter at [-2^53], the lowest number; no task and
    the counter at [2^53], the highest. *)
Definition lowest_world : world :=
  World {[ db_json := File (JSON_stringify (tasks_json [Task 1 "A" "todo"]));
           counter_json :=
             File (JSON_stringify (counter_doc (-9007199254740992))) ]} [].

Definition highest_world : world :=
  World {[ counter_json :=
             File (JSON_stringify (counter_doc 9007199254740992)) ]} [].

(** The world a command leaves behind. *)
Definition after {A : Type} (m : M A) (w : world) : world := snd (m w).

(** * Properties *)

(** ** Texts *)

#[local] Arguments String.append !s1 s2 : simpl nomatch.
#[local] Arguments Ascii.eqb !a !b : simpl nomatch.
#[local] Arguments strip_prefix !p !s : simpl nomatch.

Lemma append_assoc (a b c : string) : (a +:+ b) +:+ c = a +:+ (b +:+ c).
Proof. induction a as [|x a IH]; simpl; [reflexivity | now rewrite IH]. Qed.

Lemma append_cons (x : ascii) (a b : string) :
  String x a +:+ b = String x (a +:+ b).
Proof. reflexivity. Qed.

Lemma append_empty_r (a : string) : a +:+ "" = a.
Proof. induction a as [|x a IH]; simpl; [reflexivity | now rewrite IH]. Qed.

Lemma str_is_empty_false (s : string) : str_is_empty s = false <-> s <> "".
Proof. destruct s; simpl; split; congruence. Qed.

(** Tactics: normal form of a text built with [+:+], case analysis on a
    test, distinctness of a short list of keys. *)
Ltac norm_str := repeat (progress (rewrite ?append_assoc; simpl)).
Tactic Notation "norm_str" "in" hyp(H) :=
  repeat (progress (rewrite ?append_assoc in H; simpl in H)).

Ltac case_if :=
  match goal with |- context [if ?b then _ else _] => destruct b end.

Ltac distinct_keys :=
  rewrite ?NoDup_cons, ?not_elem_of_cons;
  repeat split; try discriminate; try apply not_elem_of_nil; apply NoDup_nil_2.

(** ** Numbers *)

(** A number is its integer. *)
Lemma number_eq (x y : number) : to_Z x = to_Z y -> x = y.
Proof.
  destruct x as [a Ha], y as [b Hb]. simpl. intros ->. f_equal. apply proof_irrel.
Qed.

Lemma to_Z_range (x : number) : (- two53 <= to_Z x <= two53)%Z.
Proof.
  destruct x as [n H]. simpl. unfold in_range in H.
  apply andb_true_iff in H as [H1 H2]. lia.
Qed.

Lemma number_of_value (n : Z) (x : number) : number_of n = Some x -> to_Z x = n.
Proof.
  unfold number_of. generalize (eq_refl (in_range n)).
  generalize (in_range n) at 2 3. intros [] e H; [|discriminate].
  injection H as <-. reflexivity.
Qed.

Lemma number_of_in_range (n : Z) :
  in_range n = true -> exists x, number_of n = Some x /\ to_Z x = n.
Proof.
  intros Hn. exists (Number n Hn). split; [|reflexivity].
  unfold number_of. generalize (eq_refl (in_range n)).
  generalize (in_range n) at 2 3. intros [] e; [|congruence].
  f_equal. now apply number_eq.
Qed.

(** A number is the double nearest to itself. *)
Lemma round_to_number_exact (x : number) : round_to_number (to_Z x) = Some x.
Proof.
  pose proof (to_Z_range x) as Hx. unfold round_to_number.
  destruct (Z.eqb_spec (to_Z x) (two53 + 1)); [lia|].
  destruct (Z.eqb_spec (to_Z x) (- two53 - 1)); [lia|].
  destruct (number_of_in_range (to_Z x) (number_in_range x)) as (y & -> & Hy).
  f_equal. now apply number_eq.
Qed.

Lemma round_to_number_value (m : Z) (x : number) :
  round_to_number m = Some x ->
  to_Z x = (if m =? two53 + 1 then two53
            else if m =? - two53 - 1 then - two53 else m)%Z.
Proof.
  unfold round_to_number.
  destruct (m =? two53 + 1)%Z; [apply number_of_value|].
  destruct (m =? - two53 - 1)%Z; apply number_of_value.
Qed.

(** One more and one less, as doubles: the sum is exact unless it leaves
    the range, and then the number stays where it is. *)
Lemma round_to_number_step (x : number) (delta : Z) :
  (delta = 1 \/ delta = -1)%Z ->
  exists y, round_to_number (to_Z x + delta) = Some y /\
            to_Z y = Z.max (- two53) (Z.min two53 (to_Z x + delta))%Z.
Proof.
  intros Hd. pose proof (to_Z_range x) as Hx.
  assert (Hy : exists y, round_to_number (to_Z x + delta) = Some y).
  { unfold round_to_number.
    destruct (Z.eqb_spec (to_Z x + delta) (two53 + 1));
      [destruct (number_of_in_range two53 eq_refl) as (y & -> & _); eauto|].
    destruct (Z.eqb_spec (to_Z x + delta) (- two53 - 1));
      [destruct (number_of_in_range (- two53) eq_refl) as (y & -> & _); eauto|].
    destruct (number_of_in_range (to_Z x + delta)) as (y & -> & _); eauto.
    unfold in_range. apply andb_true_iff. split; apply Z.leb_le; lia. }
  destruct Hy as [y Hy]. exists y. split; [exact Hy|].
  rewrite (round_to_number_value _ _ Hy).
  destruct (Z.eqb_spec (to_Z x + delta) (two53 + 1)); [lia|].
  destruct (Z.eqb_spec (to_Z x + delta) (- two53 - 1)); lia.
Qed.

(** ** Quoting and reading a string *)

(** Reading the escape of one character gives the character back. *)
Lemma parse_chars_escape_char (c : ascii) (s : string) :
  parse_chars (escape_char c +:+ s) = pcons c (parse_chars s).
Proof.
  destruct c as [b0 b1 b2 b3 b4 b5 b6 b7].
  destruct b0, b1, b2, b3, b4, b5, b6, b7; reflexivity.
Qed.

Lemma parse_chars_escape (s rest : string) :
  parse_chars (escape s +:+ String "034" rest) = POk (s, rest).
Proof.
  induction s as [|c s IH]; simpl.
  - reflexivity.
  - rewrite append_assoc, parse_chars_escape_char, IH. reflexivity.
Qed.

(** ** Printing and reading a number *)

Lemma ends_number_digits (rest : string) :
  ends_number rest = true -> read_digits rest = (Nil, rest).
Proof.
  destruct rest as [|c r]; [reflexivity|].
  unfold ends_number, is_digit. simpl.
  destruct (digit_of c); [discriminate | reflexivity].
Qed.

Lemma ends_number_tail (rest : string) :
  ends_number rest = true -> number_tail rest = POk tt.
Proof.
  destruct rest as [|c r]; [reflexivity|].
  unfold ends_number, number_tail, starts_exponent.
  destruct (is_digit c), (Ascii.eqb c "."), (Ascii.eqb c "e"), (Ascii.eqb c "E");
    simpl; congruence.
Qed.

Lemma read_digits_uint (u : uint) (rest : string) :
  read_digits rest = (Nil, rest) ->
  read_digits (string_of_uint u +:+ rest) = (u, rest).
Proof.
  intros Hrest. induction u; simpl; try rewrite IHu; auto.
Qed.

Lemma no_leading_zero_unorm (d : uint) : no_leading_zero (unorm d) = true.
Proof. induction d; simpl; auto. Qed.

Lemma to_uint_unorm (p : positive) : Pos.to_uint p = unorm (Pos.to_uint p).
Proof.
  rewrite <- DecimalPos.Unsigned.to_of, DecimalPos.Unsigned.of_to.
  reflexivity.
Qed.

Lemma no_leading_zero_pos (p : positive) : no_leading_zero (Pos.to_uint p) = true.
Proof. rewrite to_uint_unorm. apply no_leading_zero_unorm. Qed.

(** The numeral of a positive number starts with a digit. *)
Lemma string_of_uint_head (p : positive) :
  exists c s, string_of_uint (Pos.to_uint p) = String c s /\ is_digit c = true.
Proof.
  pose proof (DecimalPos.Unsigned.to_uint_nonnil p) as Hnil.
  destruct (Pos.to_uint p); [congruence | ..]; simpl; eauto.
Qed.

(** Reading the numeral of an integer gives its sign and its digits. *)
Lemma parse_number_decimal (n : Z) (rest : string) :
  ends_number rest = true ->
  parse_number (decimal n +:+ rest) =
  pbind (integer_value (n <? 0)%Z (Z.abs_N n)) (fun x => POk (JNum x, rest)).
Proof.
  intros Hend.
  pose proof (ends_number_digits rest Hend) as Hdigits.
  pose proof (ends_number_tail rest Hend) as Htail.
  destruct n as [|p|p]; unfold parse_number.
  - simpl. rewrite Hdigits. simpl. rewrite Htail. reflexivity.
  - destruct (string_of_uint_head p) as (c & s & Hs & Hc).
    simpl. rewrite Hs. simpl.
    replace (Ascii.eqb c "-") with false
      by (destruct c as [[] [] [] [] [] [] [] []]; cbv in Hc |- *; congruence).
    rewrite <- append_cons, <- Hs, (read_digits_uint _ _ Hdigits).
    rewrite no_leading_zero_pos, Htail.
    change (N.of_uint (Pos.to_uint p)) with (Pos.of_uint (Pos.to_uint p)).
    rewrite DecimalPos.Unsigned.of_to. reflexivity.
  - simpl. rewrite (read_digits_uint _ _ Hdigits).
    rewrite no_leading_zero_pos, Htail.
    change (N.of_uint (Pos.to_uint p)) with (Pos.of_uint (Pos.to_uint p)).
    rewrite DecimalPos.Unsigned.of_to. reflexivity.
Qed.

(** The sign and the digits of a number are read as the number. *)
Lemma integer_value_number (x : number) :
  integer_value (to_Z x <? 0)%Z (Z.abs_N (to_Z x)) = POk x.
Proof.
  unfold integer_value.
  assert (Hval : (if (to_Z x <? 0)%Z then - Z.of_N (Z.abs_N (to_Z x))
                  else Z.of_N (Z.abs_N (to_Z x)))%Z = to_Z x)
    by (rewrite N2Z.inj_abs_N; destruct (Z.ltb_spec (to_Z x) 0); lia).
  rewrite Hval, round_to_number_exact.
  destruct (Z.ltb_spec (to_Z x) 0); [|reflexivity].
  destruct (N.eqb_spec (Z.abs_N (to_Z x)) 0) as [E|E]; [|reflexivity].
  apply (f_equal Z.of_N) in E. rewrite N2Z.inj_abs_N in E. lia.
Qed.

Lemma parse_number_toString (n : number) (rest : string) :
  ends_number rest = true ->
  parse_number (Number_toString n +:+ rest) = POk (JNum n, rest).
Proof.
  intros Hend. unfold Number_toString.
  rewrite (parse_number_decimal _ _ Hend), integer_value_number. reflexivity.
Qed.

Lemma digit_value_start (c : ascii) : is_digit c = true -> value_start c = true.
Proof. destruct c as [[] [] [] [] [] [] [] []]; cbv; congruence. Qed.

(** A numeral starts with a digit or with the sign. *)
Lemma decimal_head (n : Z) :
  exists c s, decimal n = String c s /\
              Ascii.eqb c "-" || is_digit c = true /\ value_start c = true.
Proof.
  destruct n as [|p|p]; simpl; eauto.
  destruct (string_of_uint_head p) as (c & s & -> & Hc).
  exists c, s. rewrite Hc, orb_true_r. eauto using digit_value_start.
Qed.

Lemma ser_head (indent : string) (v : json) :
  exists c s, SerializeJSONProperty indent v = String c s /\ value_start c = true.
Proof.
  destruct v as [|[]|n|s|[|x xs]|[|[k x] xs]]; simpl; eauto.
  destruct (decimal_head (to_Z n)) as (c & s & Hs & _ & Hc).
  unfold Number_toString. rewrite Hs. eauto.
Qed.

Lemma all_ws_empty : all_ws "".
Proof. intros s. reflexivity. Qed.

Lemma all_ws_gap (indent : string) : all_ws indent -> all_ws (indent +:+ gap).
Proof. intros H s. rewrite append_assoc, H. reflexivity. Qed.

Lemma skip_ws_start (c : ascii) (s : string) :
  value_start c = true -> skip_ws (String c s) = String c s.
Proof.
  unfold value_start. simpl. destruct (is_json_ws c); simpl; congruence.
Qed.

(** ** Reading back what was printed *)

Lemma parse_value_number (f : nat) (c : ascii) (s : string) :
  Ascii.eqb c "-" || is_digit c = true ->
  parse_value (S f) (String c s) = parse_number (String c s).
Proof.
  destruct c as [[] [] [] [] [] [] [] []]; cbv [Ascii.eqb is_digit digit_of orb Bool.eqb];
    intros H; try discriminate H; reflexivity.
Qed.

Lemma skip_ws_ser (indent : string) (v : json) (s : string) :
  skip_ws (SerializeJSONProperty indent v +:+ s) = SerializeJSONProperty indent v +:+ s.
Proof.
  destruct (ser_head indent v) as (c & t & -> & Hc).
  simpl. apply skip_ws_start, Hc.
Qed.

Lemma strip_bracket_ser (indent : string) (v : json) (s : string) :
  strip_prefix "]" (SerializeJSONProperty indent v +:+ s) = None.
Proof.
  destruct (ser_head indent v) as (c & t & -> & Hc).
  rewrite append_cons.
  change (strip_prefix "]" (String c (t +:+ s)))
    with (if Ascii.eqb "]" c then Some (t +:+ s) else None).
  unfold value_start in Hc.
  rewrite Ascii.eqb_sym. destruct (Ascii.eqb c "]"); [|reflexivity].
  rewrite !orb_true_r in Hc; discriminate.
Qed.

Lemma reads_back_items (indent inner rest : string) :
  all_ws indent -> all_ws inner -> 
  forall xs x, reads_back x -> Forall reads_back xs ->
  exists f0, forall f, f0 <= f ->
    parse_elements f
      (SerializeJSONProperty inner x +:+
       more_items (SerializeJSONProperty inner) inner indent xs +:+ rest)
    = POk (x :: xs, rest).
Proof.
  intros Hind Hinner xs.
  induction xs as [|y l IH]; intros x Hx Hxs.
  - destruct (Hx inner (line_break indent +:+ "]" +:+ rest) Hinner eq_refl) as [f1 H1].
    exists (S f1). intros [|f] Hf; [lia|].
    simpl. rewrite !append_assoc. rewrite H1 by lia. simpl.
    rewrite Hind. reflexivity.
  - inversion Hxs as [|? ? Hy Hl]; subst.
    destruct (IH y Hy Hl) as [f2 H2].
    destruct (Hx inner ("," +:+ line_break inner +:+ SerializeJSONProperty inner y +:+
                        more_items (SerializeJSONProperty inner) inner indent l +:+ rest)
                Hinner eq_refl) as [f1 H1].
    exists (S (Nat.max f1 f2)). intros [|f] Hf; [lia|].
    simpl. rewrite !append_assoc. simpl in H1. rewrite H1 by lia. simpl.
    rewrite Hinner, skip_ws_ser. rewrite H2 by lia. reflexivity.
Qed.

Lemma has_key_false (k : string) (o : list (string * json)) :
  k ∉ map fst o -> has_key k o = false.
Proof.
  induction o as [|[k' v] o IH]; simpl; intros Hk; [reflexivity|].
  apply not_elem_of_cons in Hk as [Hne Hk].
  rewrite IH by assumption.
  destruct (String.eqb_spec k' k); [congruence | reflexivity].
Qed.

Lemma obj_set_fresh (k : string) (v : json) (o : list (string * json)) :
  k ∉ map fst o -> array_index k = None -> obj_set k v o = o ++ [(k, v)].
Proof.
  intros Hk Hidx. unfold obj_set. now rewrite has_key_false, Hidx.
Qed.

Lemma reads_back_members (indent inner rest : string) :
  all_ws indent -> all_ws inner ->
  forall xs k x acc,
    reads_back x -> Forall (fun p => reads_back (snd p)) xs ->
    NoDup (map fst (acc ++ (k, x) :: xs)) ->
    Forall (fun p => array_index (fst p) = None) ((k, x) :: xs) ->
    exists f0, forall f, f0 <= f ->
      parse_members f
        (QuoteJSONString k +:+ ": " +:+ SerializeJSONProperty inner x +:+
         more_members (SerializeJSONProperty inner) inner indent xs +:+ rest) acc
      = POk (acc ++ (k, x) :: xs, rest).
Proof.
  intros Hind Hinner xs.
  induction xs as [|[k' y] l IH]; intros k x acc Hx Hxs Hdup Hidx.
  - destruct (Hx inner (line_break indent +:+ "}" +:+ rest) Hinner eq_refl) as [f1 H1].
    exists (S f1). intros [|f] Hf; [lia|].
    unfold QuoteJSONString. norm_str.
    rewrite parse_chars_escape. simpl. rewrite skip_ws_ser.
    norm_str in H1. rewrite H1 by lia. simpl. rewrite Hind. simpl.
    rewrite obj_set_fresh; [reflexivity | | now inversion Hidx].
    rewrite map_app in Hdup. simpl in Hdup.
    apply NoDup_app in Hdup as (_ & Hdup & _).
    intros Hin. apply (Hdup k Hin). left.
  - inversion Hxs as [|? ? Hy Hl]; subst.
    assert (Hset : obj_set k x acc = acc ++ [(k, x)]).
    { apply obj_set_fresh; [|now inversion Hidx].
      rewrite map_app in Hdup. simpl in Hdup.
      apply NoDup_app in Hdup as (_ & Hdup & _).
      intros Hin. apply (Hdup k Hin). left. }
    destruct (IH k' y (acc ++ [(k, x)]) Hy Hl) as [f2 H2].
    { now rewrite <- app_assoc. }
    { now inversion Hidx. }
    destruct (Hx inner
                ("," +:+ line_break inner +:+ QuoteJSONString k' +:+ ": " +:+
                 SerializeJSONProperty inner y +:+
                 more_members (SerializeJSONProperty inner) inner indent l +:+ rest)
                Hinner eq_refl) as [f1 H1].
    exists (S (Nat.max f1 f2)). intros [|f] Hf; [lia|].
    unfold QuoteJSONString in *. norm_str.
    rewrite parse_chars_escape. simpl. rewrite skip_ws_ser.
    norm_str in H1. rewrite H1 by lia. simpl.
    rewrite Hset, Hinner. simpl.
    norm_str in H2. rewrite H2 by lia. now rewrite <- app_assoc.
Qed.

Lemma Forall_modus_ponens {A : Type} (P Q : A -> Prop) (l : list A) :
  Forall (fun x => P x -> Q x) l -> Forall P l -> Forall Q l.
Proof.
  induction 1 as [|x l Hx _ IH]; intros HP; constructor;
    inversion HP; subst; auto.
Qed.

Lemma plain_reads_back (v : json) : plain_json v -> reads_back v.
Proof.
  induction v as [|b|n|s|l IH|o IH] using json_nested_ind;
    intros Hplain indent rest Hind Hrest.
  - exists 1. intros [|f] Hf; [lia | reflexivity].
  - exists 1. intros [|f] Hf; [lia | destruct b; reflexivity].
  - exists 1. intros [|f] Hf; [lia|].
    destruct (decimal_head (to_Z n)) as (c & t & Hs & Hc & _).
    cbn [SerializeJSONProperty]. unfold Number_toString at 1.
    rewrite Hs, append_cons, (parse_value_number _ _ _ Hc).
    rewrite <- append_cons, <- Hs. now apply parse_number_toString.
  - exists 1. intros [|f] Hf; [lia|].
    unfold SerializeJSONProperty, QuoteJSONString. norm_str.
    rewrite parse_chars_escape. reflexivity.
  - inversion Hplain as [| | | |l' Hl|]; subst.
    pose proof (Forall_modus_ponens _ _ _ IH Hl) as Hback.
    destruct l as [|x xs].
    + exists 1. intros [|f] Hf; [lia | reflexivity].
    + inversion Hback as [|? ? Hx Hxs]; subst.
      destruct (reads_back_items indent (indent +:+ gap) rest Hind
                  (all_ws_gap _ Hind) xs x Hx Hxs) as [f0 H0].
      exists (S f0). intros [|f] Hf; [lia|].
      pose proof (all_ws_gap _ Hind) as Hgap.
      cbn [SerializeJSONProperty]. set (inner := indent +:+ gap) in *.
      norm_str. norm_str in H0.
      rewrite Hgap, skip_ws_ser, strip_bracket_ser.
      rewrite H0 by lia. reflexivity.
  - inversion Hplain as [| | | | |o' Hdup Ho]; subst.
    assert (Hback : Forall (fun p => reads_back (snd p)) o).
    { apply (Forall_modus_ponens (fun p => plain_json (snd p))); [exact IH|].
      eapply Forall_impl; [exact Ho|]. intros p [_ Hp]. exact Hp. }
    assert (Hidx : Forall (fun p => array_index (fst p) = None) o).
    { eapply Forall_impl; [exact Ho|]. intros p [Hp _]. exact Hp. }
    destruct o as [|[k x] xs].
    + exists 1. intros [|f] Hf; [lia | reflexivity].
    + inversion Hback as [|? ? Hx Hxs]; subst.
      destruct (reads_back_members indent (indent +:+ gap) rest Hind
                  (all_ws_gap _ Hind) xs k x [] Hx Hxs Hdup Hidx) as [f0 H0].
      exists (S f0). intros [|f] Hf; [lia|].
      pose proof (all_ws_gap _ Hind) as Hgap.
      cbn [SerializeJSONProperty]. set (inner := indent +:+ gap) in *.
      unfold QuoteJSONString in *. norm_str. norm_str in H0.
      rewrite Hgap. simpl.
      rewrite H0 by lia. reflexivity.
Qed.

(** ** The recursion bound of the parser *)

(** One step of each of the three functions. *)
Lemma parse_elements_S (f : nat) (s : string) :
  parse_elements (S f) s =
  pbind (parse_value f s) (fun p =>
    match skip_ws (snd p) with
    | String c r =>
        if Ascii.eqb c "," then
          pbind (parse_elements f (skip_ws r)) (fun q => POk (fst p :: fst q, snd q))
        else if Ascii.eqb c "]" then POk ([fst p], r)
        else PSyntax
    | EmptyString => PSyntax
    end).
Proof. reflexivity. Qed.

Lemma parse_members_S (f : nat) (s : string) (acc : list (string * json)) :
  parse_members (S f) s acc =
  match strip_prefix (String "034" "") s with
  | None => PSyntax
  | Some r =>
      pbind (parse_chars r) (fun k =>
        match strip_prefix ":" (skip_ws (snd k)) with
        | None => PSyntax
        | Some r1 =>
            pbind (parse_value f (skip_ws r1)) (fun p =>
              match skip_ws (snd p) with
              | String c r2 =>
                  if Ascii.eqb c ","
                  then parse_members f (skip_ws r2) (obj_set (fst k) (fst p) acc)
                  else if Ascii.eqb c "}"
                       then POk (obj_set (fst k) (fst p) acc, r2)
                       else PSyntax
              | EmptyString => PSyntax
              end)
        end)
  end.
Proof. reflexivity. Qed.

Lemma parse_value_S (f : nat) (c : ascii) (r : string) :
  parse_value (S f) (String c r) =
  if Ascii.eqb c "n" then parse_literal "ull" JNull r
  else if Ascii.eqb c "t" then parse_literal "rue" (JBool true) r
  else if Ascii.eqb c "f" then parse_literal "alse" (JBool false) r
  else if Ascii.eqb c "034" then
    pbind (parse_chars r) (fun p => POk (JStr (fst p), snd p))
  else if Ascii.eqb c "[" then
    match strip_prefix "]" (skip_ws r) with
    | Some r1 => POk (JArr [], r1)
    | None => pbind (parse_elements f (skip_ws r)) (fun p => POk (JArr (fst p), snd p))
    end
  else if Ascii.eqb c "{" then
    match strip_prefix "}" (skip_ws r) with
    | Some r1 => POk (JObj [], r1)
    | None => pbind (parse_members f (skip_ws r) []) (fun p => POk (JObj (fst p), snd p))
    end
  else if Ascii.eqb c "-" || is_digit c then parse_number (String c r)
  else PSyntax.
Proof. reflexivity. Qed.

Lemma pbind_fuel_step {A B : Type} (r r' : presult A) (k k' : A -> presult B) :
  (r <> PFuel -> r' = r) ->
  (forall a, r = POk a -> k a <> PFuel -> k' a = k a) ->
  pbind r k <> PFuel -> pbind r' k' = pbind r k.
Proof.
  intros Hr Hk H.
  assert (r <> PFuel) as Hne by (intros ->; apply H; reflexivity).
  rewrite (Hr Hne). destruct r; simpl in *; auto.
Qed.

(** A larger bound does not change an answer other than [PFuel]. *)
Lemma parse_fuel_step (f : nat) :
  (forall s, parse_value f s <> PFuel -> parse_value (S f) s = parse_value f s) /\
  (forall s, parse_elements f s <> PFuel ->
             parse_elements (S f) s = parse_elements f s) /\
  (forall s acc, parse_members f s acc <> PFuel ->
                 parse_members (S f) s acc = parse_members f s acc).
Proof.
  induction f as [|f (IHv & IHe & IHm)].
  - repeat split; intros; simpl in *; congruence.
  - repeat split.
    + intros [|c r] H; [reflexivity|].
      rewrite (parse_value_S f) in H |- *. rewrite (parse_value_S (S f)).
      repeat match goal with
             | |- context [if ?b then _ else _] => destruct b
             | |- context [match strip_prefix ?p ?s with _ => _ end] =>
                 destruct (strip_prefix p s)
             end; try reflexivity; apply pbind_fuel_step; auto.
    + intros s H. rewrite (parse_elements_S f) in H |- *. rewrite (parse_elements_S (S f)).
      apply pbind_fuel_step; auto.
      intros p _. destruct (skip_ws (snd p)) as [|c r]; [reflexivity|].
      destruct (Ascii.eqb c ","); [|reflexivity].
      apply pbind_fuel_step; auto.
    + intros s acc H. rewrite (parse_members_S f) in H |- *. rewrite (parse_members_S (S f)).
      destruct (strip_prefix (String "034" "") s) as [r|]; [|reflexivity].
      apply pbind_fuel_step; auto.
      intros k _. destruct (strip_prefix ":" (skip_ws (snd k))) as [r1|]; [|reflexivity].
      intros Hk. apply pbind_fuel_step; auto.
      intros p _. destruct (skip_ws (snd p)) as [|c r2]; [reflexivity|].
      destruct (Ascii.eqb c ","); auto.
Qed.

Lemma parse_value_fuel_mono (f f' : nat) (s : string) :
  f <= f' -> parse_value f s <> PFuel -> parse_value f' s = parse_value f s.
Proof.
  induction 1 as [|f' Hle IH]; intros H; [reflexivity|].
  rewrite <- (IH H). apply parse_fuel_step. now rewrite (IH H).
Qed.

(** Every successful step of the parser consumes at least one character, so
    a bound of twice the length of the text, plus two, is never reached. *)

Lemma skip_ws_length (s : string) : String.length (skip_ws s) <= String.length s.
Proof. induction s as [|c s IH]; simpl; [lia|]. destruct (is_json_ws c); simpl; lia. Qed.

Lemma strip_prefix_length (p s r : string) :
  strip_prefix p s = Some r -> String.length s = String.length p + String.length r.
Proof.
  revert s. induction p as [|c p IH]; intros s H.
  - injection H as ->. reflexivity.
  - destruct s as [|d s]; [discriminate|].
    change (strip_prefix (String c p) (String d s))
      with (if Ascii.eqb c d then strip_prefix p s else None) in H.
    destruct (Ascii.eqb c d); [|discriminate].
    simpl. now rewrite (IH s H).
Qed.

Lemma read_digits_length (s : string) :
  String.length (snd (read_digits s)) <= String.length s /\
  (fst (read_digits s) <> Nil ->
   String.length (snd (read_digits s)) < String.length s).
Proof.
  induction s as [|c s [IH1 IH2]]; simpl; [split; [lia | congruence]|].
  destruct (digit_of c); simpl.
  - destruct (read_digits s) as [ds rest]; simpl in *. split; intros; lia.
  - split; [lia | congruence].
Qed.

Lemma pcons_inv (c : ascii) (r : presult (string * string)) (p : string * string) :
  pcons c r = POk p -> exists q, r = POk q /\ snd p = snd q.
Proof. destruct r as [q| | |]; simpl; intros H; inversion H; eauto. Qed.

Lemma pcons_fuel (c : ascii) (r : presult (string * string)) :
  r <> PFuel -> pcons c r <> PFuel.
Proof. destruct r; simpl; congruence. Qed.

Lemma parse_chars_length_aux (n : nat) (s : string) :
  String.length s <= n ->
  parse_chars s <> PFuel /\
  forall p, parse_chars s = POk p -> String.length (snd p) < String.length s.
Proof.
  revert s. induction n as [|n IH]; intros s Hn.
  - destruct s; simpl in *; [split; [congruence | discriminate] | lia].
  - destruct s as [|c r]; [split; simpl; [congruence | discriminate]|].
    simpl in Hn.
    assert (Hstep : forall d t,
               String.length t <= n ->
               pcons d (parse_chars t) <> PFuel /\
               forall p, pcons d (parse_chars t) = POk p ->
                         String.length (snd p) < String.length t).
    { intros d t Ht. destruct (IH t Ht) as [H1 H2]. split.
      - now apply pcons_fuel.
      - intros p Hp. apply pcons_inv in Hp as (q & Hq & ->). now apply H2. }
    assert (Hleaf : forall d t,
               String.length t <= String.length r ->
               pcons d (parse_chars t) <> PFuel /\
               forall p, pcons d (parse_chars t) = POk p ->
                         String.length (snd p) < String.length (String c r)).
    { intros d t Ht. destruct (Hstep d t ltac:(lia)) as [H1 H2].
      split; [exact H1|]. intros p Hp. specialize (H2 p Hp). simpl. lia. }
    cbn [parse_chars].
    destruct (Ascii.eqb c "034").
    { split; [congruence|]. intros p H. injection H as <-. simpl. lia. }
    destruct (Ascii.eqb c "092").
    + destruct r as [|e r1]; [split; [congruence | discriminate]|].
      repeat match goal with
             | |- context [if Ascii.eqb e ?x then _ else _] =>
                 destruct (Ascii.eqb e x)
             end;
        try (apply Hleaf; simpl; lia);
        try (split; [congruence | discriminate]).
      destruct r1 as [|h1 [|h2 [|h3 [|h4 r2]]]];
        try (split; [congruence | discriminate]).
      destruct (hex4 h1 h2 h3 h4) as [m|]; [|split; [congruence | discriminate]].
      destruct (m <? 256)%N; [|split; [congruence | discriminate]].
      apply Hleaf. simpl. lia.
    + destruct (code c <? 32)%N; [split; [congruence | discriminate]|].
      apply Hleaf. lia.
Qed.

Lemma parse_chars_length (s : string) (p : string * string) :
  parse_chars s = POk p -> String.length (snd p) < String.length s.
Proof. apply (parse_chars_length_aux (String.length s) s (le_n _)). Qed.

Lemma parse_chars_fuel (s : string) : parse_chars s <> PFuel.
Proof. apply (parse_chars_length_aux (String.length s) s (le_n _)). Qed.

Lemma number_tail_fuel (s : string) : number_tail s <> PFuel.
Proof.
  assert (Hexp : forall t, check_exponent t <> PFuel).
  { intros t. unfold check_exponent.
    destruct (fst (read_digits _)); congruence. }
  unfold number_tail. destruct s as [|c r]; [congruence|].
  destruct (Ascii.eqb c ".").
  - destruct (read_digits r) as [fs r1].
    destruct fs; try congruence; destruct (starts_exponent r1); auto; congruence.
  - destruct (starts_exponent (String c r)); auto; congruence.
Qed.

Lemma no_leading_zero_nonnil (u : uint) : no_leading_zero u = true -> u <> Nil.
Proof. destruct u; simpl; congruence. Qed.

Lemma parse_number_length (s : string) :
  parse_number s <> PFuel /\
  forall p, parse_number s = POk p -> String.length (snd p) < String.length s.
Proof.
  unfold parse_number.
  set (split := match s with
                | String c r => if Ascii.eqb c "-" then (true, r) else (false, s)
                | EmptyString => (false, s)
                end).
  assert (Hsplit : String.length (snd split) <= String.length s).
  { subst split. destruct s as [|c r]; simpl; [lia|].
    destruct (Ascii.eqb c "-"); simpl; lia. }
  destruct split as [neg s1]. simpl in Hsplit.
  pose proof (read_digits_length s1) as [Hle Hlt].
  destruct (read_digits s1) as [ds s2]. simpl in Hle, Hlt.
  destruct (no_leading_zero ds) eqn:Hz; [|split; [congruence | discriminate]].
  pose proof (number_tail_fuel s2) as Htail.
  destruct (number_tail s2); simpl; try (split; [congruence | discriminate]).
  assert (Hval : integer_value neg (N.of_uint ds) <> PFuel).
  { unfold integer_value. destruct (neg && _); [congruence|].
    destruct (round_to_number _); congruence. }
  destruct (integer_value neg (N.of_uint ds)); simpl;
    try (split; [congruence | discriminate]).
  split; [congruence|]. intros p H. injection H as <-. simpl.
  specialize (Hlt (no_leading_zero_nonnil _ Hz)). lia.
Qed.

Lemma parse_literal_length (word : string) (v : json) (s : string) :
  parse_literal word v s <> PFuel /\
  forall p, parse_literal word v s = POk p -> String.length (snd p) <= String.length s.
Proof.
  unfold parse_literal. destruct (strip_prefix word s) as [r|] eqn:Hr.
  - split; [congruence|]. intros p H. injection H as <-. simpl.
    apply strip_prefix_length in Hr. lia.
  - split; [congruence | discriminate].
Qed.

Lemma pbind_inv {A B : Type} (r : presult A) (k : A -> presult B) (b : B) :
  pbind r k = POk b -> exists a, r = POk a /\ k a = POk b.
Proof. destruct r; simpl; intros H; try discriminate; eauto. Qed.

Lemma pbind_fuel {A B : Type} (r : presult A) (k : A -> presult B) :
  r <> PFuel -> (forall a, r = POk a -> k a <> PFuel) -> pbind r k <> PFuel.
Proof. destruct r; simpl; intros; auto; congruence. Qed.

(** What a successful parse leaves over is shorter than its text. *)
Lemma parse_consumes (f : nat) :
  (forall s p, parse_value f s = POk p -> String.length (snd p) < String.length s) /\
  (forall s p, parse_elements f s = POk p ->
               String.length (snd p) < String.length s) /\
  (forall s acc p, parse_members f s acc = POk p ->
                   String.length (snd p) < String.length s).
Proof.
  induction f as [|f (IHv & IHe & IHm)]; [repeat split; intros; discriminate|].
  repeat split.
  - intros [|c r] p H; [discriminate|]. rewrite parse_value_S in H.
    repeat match type of H with
           | (if ?b then _ else _) = _ => destruct b
           end.
    + apply parse_literal_length in H. simpl. lia.
    + apply parse_literal_length in H. simpl. lia.
    + apply parse_literal_length in H. simpl. lia.
    + apply pbind_inv in H as (q & Hq & H). injection H as <-. simpl.
      apply parse_chars_length in Hq. lia.
    + pose proof (skip_ws_length r).
      destruct (strip_prefix "]" (skip_ws r)) as [r1|] eqn:Hr.
      * injection H as <-. apply strip_prefix_length in Hr. simpl in *. lia.
      * apply pbind_inv in H as (q & Hq & H). injection H as <-. simpl.
        apply IHe in Hq. lia.
    + pose proof (skip_ws_length r).
      destruct (strip_prefix "}" (skip_ws r)) as [r1|] eqn:Hr.
      * injection H as <-. apply strip_prefix_length in Hr. simpl in *. lia.
      * apply pbind_inv in H as (q & Hq & H). injection H as <-. simpl.
        apply IHm in Hq. lia.
    + now apply parse_number_length in H.
    + discriminate.
  - intros s p H. rewrite parse_elements_S in H.
    apply pbind_inv in H as (q & Hq & H). apply IHv in Hq.
    pose proof (skip_ws_length (snd q)).
    destruct (skip_ws (snd q)) as [|c r]; [discriminate|]. simpl in *.
    destruct (Ascii.eqb c ",").
    + apply pbind_inv in H as (q' & Hq' & H). injection H as <-. simpl.
      apply IHe in Hq'. pose proof (skip_ws_length r). lia.
    + destruct (Ascii.eqb c "]"); [|discriminate]. injection H as <-. simpl. lia.
  - intros s acc p H. rewrite parse_members_S in H.
    destruct (strip_prefix (String "034" "") s) as [r|] eqn:Hr; [|discriminate].
    apply strip_prefix_length in Hr.
    apply pbind_inv in H as (k & Hk & H). apply parse_chars_length in Hk.
    pose proof (skip_ws_length (snd k)).
    destruct (strip_prefix ":" (skip_ws (snd k))) as [r1|] eqn:Hr1; [|discriminate].
    apply strip_prefix_length in Hr1.
    apply pbind_inv in H as (q & Hq & H). apply IHv in Hq.
    pose proof (skip_ws_length r1). pose proof (skip_ws_length (snd q)).
    destruct (skip_ws (snd q)) as [|c r2]; [discriminate|]. simpl in *.
    destruct (Ascii.eqb c ",").
    + apply IHm in H. pose proof (skip_ws_length r2). lia.
    + destruct (Ascii.eqb c "}"); [|discriminate]. injection H as <-. simpl. lia.
Qed.

Lemma parse_enough_fuel (f : nat) :
  (forall s, 2 * String.length s < f -> parse_value f s <> PFuel) /\
  (forall s, 2 * String.length s + 1 < f -> parse_elements f s <> PFuel) /\
  (forall s acc, 2 * String.length s < f -> parse_members f s acc <> PFuel).
Proof.
  induction f as [|f (IHv & IHe & IHm)]; [repeat split; intros; lia|].
  repeat split.
  - intros [|c r] Hf; [simpl; congruence|]. rewrite parse_value_S.
    simpl in Hf. pose proof (skip_ws_length r).
    repeat match goal with
           | |- (if ?b then _ else _) <> _ => destruct b
           end; try apply parse_literal_length; try congruence.
    + apply pbind_fuel; [apply parse_chars_fuel | congruence].
    + destruct (strip_prefix "]" (skip_ws r)); [congruence|].
      apply pbind_fuel; [apply IHe; lia | congruence].
    + destruct (strip_prefix "}" (skip_ws r)); [congruence|].
      apply pbind_fuel; [apply IHm; lia | congruence].
    + apply parse_number_length.
  - intros s Hf. rewrite parse_elements_S.
    apply pbind_fuel; [apply IHv; lia|].
    intros q Hq. apply (proj1 (parse_consumes f)) in Hq.
    pose proof (skip_ws_length (snd q)).
    destruct (skip_ws (snd q)) as [|c r]; [congruence|]. simpl in *.
    destruct (Ascii.eqb c ",").
    + pose proof (skip_ws_length r).
      apply pbind_fuel; [apply IHe; lia | congruence].
    + destruct (Ascii.eqb c "]"); congruence.
  - intros s acc Hf. rewrite parse_members_S.
    destruct (strip_prefix (String "034" "") s) as [r|] eqn:Hr; [|congruence].
    apply strip_prefix_length in Hr.
    apply pbind_fuel; [apply parse_chars_fuel|].
    intros k Hk. apply parse_chars_length in Hk.
    pose proof (skip_ws_length (snd k)).
    destruct (strip_prefix ":" (skip_ws (snd k))) as [r1|] eqn:Hr1; [|congruence].
    apply strip_prefix_length in Hr1. pose proof (skip_ws_length r1).
    simpl in *.
    apply pbind_fuel; [apply IHv; lia|].
    intros q Hq. apply (proj1 (parse_consumes f)) in Hq.
    pose proof (skip_ws_length (snd q)).
    destruct (skip_ws (snd q)) as [|c r2]; [congruence|]. simpl in *.
    destruct (Ascii.eqb c ",").
    + pose proof (skip_ws_length r2). apply IHm. lia.
    + destruct (Ascii.eqb c "}"); congruence.
Qed.

(** [JSON.parse] always answers: the recursion bound it starts from is
    never reached. *)
Lemma JSON_parse_total (text : string) : JSON_parse text <> PFuel.
Proof.
  unfold JSON_parse. apply pbind_fuel.
  - apply parse_enough_fuel. pose proof (skip_ws_length text). lia.
  - intros p _. destruct (str_is_empty _); congruence.
Qed.

(** [JSON.parse (JSON.stringify (v, null, 4))] is [v]. *)
Lemma JSON_parse_stringify (v : json) :
  plain_json v -> JSON_parse (JSON_stringify v) = POk v.
Proof.
  intros Hv.
  destruct (plain_reads_back v Hv "" "" all_ws_empty eq_refl) as [f0 H0].
  rewrite append_empty_r in H0. fold (JSON_stringify v) in H0.
  unfold JSON_parse.
  pose proof (skip_ws_ser "" v "") as Hws.
  rewrite append_empty_r in Hws. fold (JSON_stringify v) in Hws. rewrite Hws.
  set (f := 2 * String.length (JSON_stringify v) + 2).
  assert (Hf : parse_value f (JSON_stringify v) <> PFuel)
    by (apply parse_enough_fuel; lia).
  rewrite <- (parse_value_fuel_mono f (Nat.max f f0)) by (auto; lia).
  rewrite H0 by lia. reflexivity.
Qed.

(** ** Reading documents *)

Lemma readJSONFile_absent (w : world) (path : string) (default : json) :
  files w !! path = None -> readJSONFile path default w = (Ret default, w).
Proof.
  intros H. unfold readJSONFile, try_catch, bind, readFile. rewrite H. reflexivity.
Qed.

Lemma readJSONFile_empty (w : world) (path : string) (default : json) :
  files w !! path = Some (File "") -> readJSONFile path default w = (Ret default, w).
Proof.
  intros H. unfold readJSONFile, try_catch, bind, readFile. rewrite H. reflexivity.
Qed.

Lemma readJSONFile_text (w : world) (path text : string) (default : json) :
  files w !! path = Some (File text) -> text <> "" ->
  readJSONFile path default w =
  match JSON_parse text with
  | POk v => (Ret v, w)
  | PSyntax => (Throw SyntaxError, w)
  | _ => (Unmodelled, w)
  end.
Proof.
  intros H Htext. apply str_is_empty_false in Htext.
  unfold readJSONFile, try_catch, bind, readFile, JSON_parse_M.
  rewrite H, Htext. destruct (JSON_parse text); reflexivity.
Qed.

Lemma JSON_stringify_nonempty (v : json) : JSON_stringify v <> "".
Proof.
  unfold JSON_stringify. destruct (ser_head "" v) as (c & s & -> & _). discriminate.
Qed.

Lemma readJSONFile_written (w : world) (path : string) (default v : json) :
  files w !! path = Some (File (JSON_stringify v)) -> plain_json v ->
  loads w path default v.
Proof.
  intros H Hv. unfold loads.
  rewrite (readJSONFile_text w path _ default H (JSON_stringify_nonempty v)).
  now rewrite JSON_parse_stringify.
Qed.

(** Reading changes nothing. *)
Lemma readJSONFile_world (w w' : world) (path : string) (default : json)
  (r : outcome json) :
  readJSONFile path default w = (r, w') -> w' = w.
Proof.
  unfold readJSONFile, try_catch, bind, readFile, JSON_parse_M.
  destruct (files w !! path) as [[text|c]|]; simpl.
  - destruct (str_is_empty text); [intros [= _ <-]; reflexivity|].
    destruct (JSON_parse text); intros [= _ <-]; reflexivity.
  - case_if; intros [= _ <-]; reflexivity.
  - intros [= _ <-]; reflexivity.
Qed.

(** What [loads] depends on is the files alone. *)
Lemma loads_files (w w' : world) (path : string) (default v : json) :
  files w' = files w -> loads w path default v -> loads w' path default v.
Proof.
  unfold loads, readJSONFile, try_catch, bind, readFile, JSON_parse_M.
  intros ->. destruct (files w !! path) as [[text|c]|]; simpl.
  - destruct (str_is_empty text); [intros [= <-]; reflexivity|].
    destruct (JSON_parse text); intros [= <-] || intros [=]; reflexivity.
  - case_if; intros [= <-] || intros [=]; reflexivity.
  - intros [= <-]; reflexivity.
Qed.

(** ** Plain values *)

Lemma plain_task (t : task) : plain_json (task_json t).
Proof.
  constructor.
  - simpl. distinct_keys.
  - repeat constructor.
Qed.

Lemma plain_tasks (l : list task) : Forall plain_json (map task_json l).
Proof. induction l; constructor; auto using plain_task. Qed.

Lemma plain_counter (c : number) : plain_json (counter_doc c).
Proof.
  constructor.
  - simpl. distinct_keys.
  - repeat constructor.
Qed.

(** ** Steps of the monad *)

Lemma bind_ret {A B : Type} (m : M A) (k : A -> M B) (w w1 : world) (a : A) :
  m w = (Ret a, w1) -> bind m k w = k a w1.
Proof. intros H. unfold bind. now rewrite H. Qed.

Lemma bind_throw {A B : Type} (m : M A) (k : A -> M B) (w w1 : world) (e : error) :
  m w = (Throw e, w1) -> bind m k w = (Throw e, w1).
Proof. intros H. unfold bind. now rewrite H. Qed.

Lemma try_catch_ret {A : Type} (m : M A) (h : error -> M A) (w w1 : world) (a : A) :
  m w = (Ret a, w1) -> try_catch m h w = (Ret a, w1).
Proof. intros H. unfold try_catch. now rewrite H. Qed.

Lemma try_catch_throw {A : Type} (m : M A) (h : error -> M A) (w w1 : world)
  (e : error) :
  m w = (Throw e, w1) -> try_catch m h w = h e w1.
Proof. intros H. unfold try_catch. now rewrite H. Qed.

Lemma writes_app (evs evs' : list event) : writes (evs ++ evs') = writes evs ++ writes evs'.
Proof.
  induction evs as [|[] evs IH]; simpl; rewrite ?IH; reflexivity.
Qed.

(** ** Searching the collection *)

Lemma has_title_task (title : string) (t : task) (w : world) :
  has_title title (task_json t) w = (Ret (String.eqb (task_title t) title), w).
Proof. reflexivity. Qed.

Lemma strict_equals_num (n : number) (v : jsval) :
  strict_equals (JSVal (JNum n)) v = true <-> v = JSVal (JNum n).
Proof.
  destruct v as [| |[]]; simpl; try (split; congruence).
  rewrite Z.eqb_eq. split; [|congruence].
  intros H. do 2 f_equal. symmetry. now apply number_eq.
Qed.

Lemma has_id_task (id : string) (v : jsval) (t : task) (w : world) :
  parseInt id = Some v ->
  has_id id (task_json t) w =
  (Ret (strict_equals (JSVal (JNum (task_id t))) v), w).
Proof. intros Hv. unfold has_id. rewrite Hv. reflexivity. Qed.

(** [db.some] finds a title exactly when some task carries it. *)
Lemma some_loop_tasks (title : string) (l : list task) (w : world) :
  some_loop (has_title title) (map task_json l) w =
  (Ret (existsb (fun t => String.eqb (task_title t) title) l), w).
Proof.
  induction l as [|t l IH]; [reflexivity|].
  cbn [map some_loop existsb].
  rewrite (bind_ret _ _ _ _ _ (has_title_task title t w)).
  destruct (String.eqb (task_title t) title); [reflexivity | exact IH].
Qed.

(** [db.findIndex] answers [-1] when no task has the id; an empty
    collection never looks at the id. *)
Lemma findIndex_loop_none (id : string) (l : list task) (i : nat) (w : world) :
  (l <> [] -> parseInt id <> None) ->
  (forall t, t ∈ l -> parseInt id <> Some (JSVal (JNum (task_id t)))) ->
  findIndex_loop (has_id id) (map task_json l) i w = (Ret None, w).
Proof.
  intros Hmod. destruct l as [|t0 l0]; [reflexivity|].
  destruct (parseInt id) as [v|] eqn:Hv; [|now destruct Hmod].
  clear Hmod. revert i. generalize (t0 :: l0). clear t0 l0.
  intros l. induction l as [|t l IH]; intros i Hl; [reflexivity|].
  cbn [map findIndex_loop].
  rewrite (bind_ret _ _ _ _ _ (has_id_task id v t w Hv)).
  destruct (strict_equals _ _) eqn:E.
  - apply strict_equals_num in E. exfalso. apply (Hl t); [left | now rewrite E].
  - apply IH. intros t' Ht'. apply Hl. now right.
Qed.

(** [db.findIndex] answers the place of the first task that has the id. *)
Lemma findIndex_loop_first (id : string) (l1 l2 : list task) (t : task)
  (i : nat) (w : world) :
  (forall t', t' ∈ l1 -> parseInt id <> Some (JSVal (JNum (task_id t')))) ->
  parseInt id = Some (JSVal (JNum (task_id t))) ->
  findIndex_loop (has_id id) (map task_json (l1 ++ t :: l2)) i w =
  (Ret (Some (i + length l1)), w).
Proof.
  revert i. induction l1 as [|t1 l1 IH]; intros i Hl1 Ht.
  - cbn [app map findIndex_loop length].
    rewrite (bind_ret _ _ _ _ _ (has_id_task id _ t w Ht)).
    rewrite (proj2 (strict_equals_num _ _) eq_refl). now rewrite Nat.add_0_r.
  - cbn [app map findIndex_loop length].
    rewrite (bind_ret _ _ _ _ _ (has_id_task id _ t1 w Ht)).
    destruct (strict_equals _ _) eqn:E.
    + apply strict_equals_num in E. exfalso.
      apply (Hl1 t1); [left | now rewrite Ht, E].
    + rewrite IH; [f_equal; f_equal; f_equal; lia | | exact Ht].
      intros t' Ht'. apply Hl1. now right.
Qed.

Lemma Array_some_tasks (title : string) (l : list task) (w : world) :
  Array_some (has_title title) (tasks_json l) w =
  (Ret (existsb (fun t => String.eqb (task_title t) title) l), w).
Proof. exact (some_loop_tasks title l w). Qed.

Lemma Array_findIndex_none (id : string) (l : list task) (w : world) :
  (l <> [] -> parseInt id <> None) ->
  (forall t, t ∈ l -> parseInt id <> Some (JSVal (JNum (task_id t)))) ->
  Array_findIndex (has_id id) (tasks_json l) w = (Ret None, w).
Proof. exact (findIndex_loop_none id l 0 w). Qed.

Lemma Array_findIndex_first (id : string) (l1 l2 : list task) (t : task) (w : world) :
  (forall t', t' ∈ l1 -> parseInt id <> Some (JSVal (JNum (task_id t')))) ->
  parseInt id = Some (JSVal (JNum (task_id t))) ->
  Array_findIndex (has_id id) (tasks_json (l1 ++ t :: l2)) w =
  (Ret (Some (length l1)), w).
Proof. exact (findIndex_loop_first id l1 l2 t 0 w). Qed.

Lemma existsb_title (title : string) (l : list task) :
  existsb (fun t => String.eqb (task_title t) title) l = true <->
  exists t, t ∈ l /\ task_title t = title.
Proof.
  rewrite existsb_exists. split; intros (t & Ht & E); exists t.
  - apply list_elem_of_In in Ht. apply String.eqb_eq in E. now split.
  - apply list_elem_of_In in Ht. apply String.eqb_eq in E. now split.
Qed.

Lemma stored_said (w : world) (out : list event) (l : list task) :
  stored_tasks w l -> stored_tasks (said w out) l.
Proof. apply loads_files. reflexivity. Qed.

(** ** The commands *)

(** C2.  [add] with a title that some stored task already has reports that
    the task exists and changes nothing: the files, hence the collection
    and the counter, are the same, and no write is issued. *)
Theorem add_existing_title (w : world) (l : list task) (options : add_options) :
  stored_tasks w l ->
  (exists t, t ∈ l /\ task_title t = add_title options) ->
  exists w',
    add options w = (Ret tt, w') /\
    events w' = events w ++ [ELog [chalk Yellow msg_exists]] /\
    files w' = files w /\
    writes (events w') = writes (events w) /\
    stored_tasks w' l /\
    (forall c, stored_counter w c -> stored_counter w' c).
Proof.
  intros Hdb Hdup. exists (said w [ELog [chalk Yellow msg_exists]]).
  split; [|split; [reflexivity|split; [reflexivity|split; [|split]]]].
  - unfold add. apply try_catch_ret.
    rewrite (bind_ret _ _ _ _ _ Hdb).
    rewrite (bind_ret _ _ _ _ _ (Array_some_tasks _ l w)).
    rewrite (proj2 (existsb_title _ _) Hdup). reflexivity.
  - simpl. rewrite writes_app. simpl. apply app_nil_r.
  - now apply stored_said.
  - intros c. apply loads_files. reflexivity.
Qed.

Lemma edit_not_found (w : world) (l : list task) (options : edit_options) :
  stored_tasks w l ->
  (l <> [] -> parseInt (edit_id options) <> None) ->
  (forall t, t ∈ l -> parseInt (edit_id options) <> Some (JSVal (JNum (task_id t)))) ->
  edit options w = (Ret tt, said w [ELog [chalk Red msg_not_found]]).
Proof.
  intros Hdb Hmod Hid. unfold edit. apply try_catch_ret.
  rewrite (bind_ret _ _ _ _ _ Hdb).
  rewrite (bind_ret _ _ _ _ _ (Array_findIndex_none _ l w Hmod Hid)). reflexivity.
Qed.

Lemma delete_not_found (w : world) (l : list task) (options : delete_options) :
  stored_tasks w l ->
  (l <> [] -> parseInt (delete_id options) <> None) ->
  (forall t, t ∈ l -> parseInt (delete_id options) <> Some (JSVal (JNum (task_id t)))) ->
  delete options w = (Ret tt, said w [ELog [chalk Red msg_not_found]]).
Proof.
  intros Hdb Hmod Hid. unfold delete. apply try_catch_ret.
  rewrite (bind_ret _ _ _ _ _ Hdb).
  rewrite (bind_ret _ _ _ _ _ (Array_findIndex_none _ l w Hmod Hid)). reflexivity.
Qed.

Lemma writes_said_log (w : world) (args : list printed) :
  writes (events (said w [ELog args])) = writes (events w).
Proof. simpl. rewrite writes_app. apply app_nil_r. Qed.

(** C3.  [edit] and [delete] with an id that no stored task has report that
    the task was not found and change nothing: the files, hence the
    collection and the counter, are the same, and no write is issued.  The
    id of the command line is compared as the program compares it, after
    [parseInt]: it matches no task when [parseInt] answers, with [NaN] or
    with a number, and no stored id is that number.  On an empty collection
    the id is not even looked at. *)
Theorem unknown_id_not_found (w : world) (l : list task) (id : string) :
  stored_tasks w l ->
  (l <> [] -> parseInt id <> None) ->
  (forall t, t ∈ l -> parseInt id <> Some (JSVal (JNum (task_id t)))) ->
  exists w',
    (forall title status, edit (EditOptions title id status) w = (Ret tt, w')) /\
    delete (DeleteOptions id) w = (Ret tt, w') /\
    events w' =
      events w ++ [ELog [Text [(Some Red, "Task with the given ID not found!")]]] /\
    files w' = files w /\
    writes (events w') = writes (events w) /\
    stored_tasks w' l /\
    (forall c, stored_counter w c -> stored_counter w' c).
Proof.
  intros Hdb Hmod Hid. exists (said w [ELog [chalk Red msg_not_found]]).
  repeat split.
  - intros title status. now apply (edit_not_found w l).
  - now apply (delete_not_found w l).
  - apply writes_said_log.
  - now apply stored_said.
  - intros c. apply loads_files. reflexivity.
Qed.

(** C10.  An id argument that [parseInt] turns into [NaN] matches no task:
    [edit] and [delete] report that the task was not found and leave the
    collection and the counter as they are. *)
Theorem nan_id_not_found (w : world) (l : list task) (id : string) :
  stored_tasks w l ->
  parseInt id = Some JSNaN ->
  exists w',
    (forall title status, edit (EditOptions title id status) w = (Ret tt, w')) /\
    delete (DeleteOptions id) w = (Ret tt, w') /\
    events w' = events w ++ [ELog [chalk Red msg_not_found]] /\
    files w' = files w /\
    writes (events w') = writes (events w) /\
    stored_tasks w' l /\
    (forall c, stored_counter w c -> stored_counter w' c).
Proof.
  intros Hdb Hnan. exists (said w [ELog [chalk Red msg_not_found]]).
  assert (Hid : forall t, t ∈ l -> parseInt id <> Some (JSVal (JNum (task_id t))))
    by (intros t _; rewrite Hnan; discriminate).
  assert (Hmod : l <> [] -> parseInt id <> None)
    by (intros _; rewrite Hnan; discriminate).
  repeat split.
  - intros title status. now apply (edit_not_found w l).
  - now apply (delete_not_found w l).
  - apply writes_said_log.
  - now apply stored_said.
  - intros c. apply loads_files. reflexivity.
Qed.

(** ** Writing documents *)

Lemma writeFile_ok (w : world) (path data : string) :
  writable w path ->
  writeFile path data w =
  (Ret tt, World (<[path := File data]> (files w)) (events w ++ [EWrite path data])).
Proof.
  intros Hw. unfold writeFile, bind, emit. simpl.
  specialize (Hw). destruct (files w !! path) as [[text|c]|] eqn:E; try reflexivity.
  exfalso. exact (Hw c E).
Qed.

Lemma writable_insert (w : world) (path path' data : string) (evs : list event) :
  writable w path ->
  writable (World (<[path' := File data]> (files w)) evs) path.
Proof.
  intros Hw c. simpl. destruct (decide (path' = path)) as [->|Hne].
  - rewrite lookup_insert_eq. discriminate.
  - rewrite lookup_insert_ne by exact Hne. apply Hw.
Qed.

Lemma db_counter_paths : db_json <> counter_json.
Proof. discriminate. Qed.

Lemma added_status_cases :
  added_status OptAbsent = JStr "todo" /\
  added_status (OptStr "") = JStr "todo" /\
  added_status OptFlag = JBool true /\
  (forall s, s <> "" -> added_status (OptStr s) = JStr s).
Proof.
  repeat split. intros [|c s] Hs; [congruence | reflexivity].
Qed.

Lemma added_status_value (st : optval) :
  opt_value (if opt_truthy st then st else OptStr "todo") = JSVal (added_status st).
Proof. destruct st as [| |[|c s]]; reflexivity. Qed.

Lemma existsb_title_false (title : string) (l : list task) :
  (forall t, t ∈ l -> task_title t <> title) ->
  existsb (fun t => String.eqb (task_title t) title) l = false.
Proof.
  intros Hl. destruct (existsb _ l) eqn:E; [|reflexivity].
  apply existsb_title in E as (t & Ht & E). now destruct (Hl t Ht).
Qed.

(** [ctr.counter++] and [ctr.counter--] on a counter document. *)
Lemma step_counter_doc (c c' : number) (delta : Z) (w : world) :
  round_to_number (to_Z c + delta) = Some c' ->
  step_counter (counter_doc c) delta w = (Ret (counter_doc c'), w).
Proof.
  intros H. unfold step_counter, counter_doc, bind. simpl. now rewrite H.
Qed.

(** The counter after [++]: one more below [2^53], and [2^53] again at
    [2^53]. *)
Lemma counter_up (c : number) :
  exists c', round_to_number (to_Z c + 1) = Some c' /\
             to_Z c' = (if to_Z c <? two53 then to_Z c + 1 else to_Z c)%Z.
Proof.
  destruct (round_to_number_step c 1) as (c' & H & Hval); [now left|].
  exists c'. split; [exact H|]. pose proof (to_Z_range c).
  destruct (Z.ltb_spec (to_Z c) two53); lia.
Qed.

(** The counter after [--]: one less above [-2^53], and [-2^53] again at
    [-2^53]. *)
Lemma counter_down (c : number) :
  exists c', round_to_number (to_Z c + -1) = Some c' /\
             to_Z c' = (if - two53 <? to_Z c then to_Z c - 1 else to_Z c)%Z.
Proof.
  destruct (round_to_number_step c (-1)) as (c' & H & Hval); [now right|].
  exists c'. split; [exact H|]. pose proof (to_Z_range c).
  destruct (Z.ltb_spec (- two53) (to_Z c)); lia.
Qed.

(** A run of [add] with a title that no stored task has; [c'] is the
    counter after [++]. *)
Lemma add_fresh_run (w : world) (l : list task) (c c' : number)
  (options : add_options) :
  stored_tasks w l -> stored_counter w c ->
  writable w db_json -> writable w counter_json ->
  (forall t, t ∈ l -> task_title t <> add_title options) ->
  round_to_number (to_Z c + 1) = Some c' ->
  let db := JArr (map task_json l ++
                  [new_task c' (add_title options)
                            (added_status (add_status options))]) in
  let ctr := counter_doc c' in
  add options w =
  (Ret tt,
   World (<[db_json := File (JSON_stringify db)]>
            (<[counter_json := File (JSON_stringify ctr)]> (files w)))
         (events w ++ [ELog [Value db];
                       EWrite counter_json (JSON_stringify ctr);
                       EWrite db_json (JSON_stringify db);
                       ELog [chalk Green msg_added]])).
Proof.
  intros Hdb Hctr Wdb Wctr Hfresh Hup db ctr. unfold add. apply try_catch_ret.
  rewrite (bind_ret _ _ _ _ _ Hdb).
  rewrite (bind_ret _ _ _ _ _ (Array_some_tasks _ l w)).
  rewrite (existsb_title_false _ _ Hfresh).
  rewrite (bind_ret _ _ _ _ _ Hctr).
  rewrite (bind_ret _ _ _ _ _ (step_counter_doc c c' 1 w Hup)).
  rewrite (bind_ret _ _ w w (JSVal (JNum c'))) by reflexivity.
  cbn [object_literal]. rewrite added_status_value.
  rewrite (bind_ret _ _ w w
             [("id", JNum c'); ("title", JStr (add_title options));
              ("status", added_status (add_status options))]) by reflexivity.
  rewrite (bind_ret _ _ w w db) by reflexivity.
  rewrite (bind_ret _ _ w (said w [ELog [Value db]]) tt) by reflexivity.
  rewrite (bind_ret _ _ _ _ _
             (writeFile_ok (said w [ELog [Value db]]) counter_json _ Wctr)).
  erewrite bind_ret by (apply writeFile_ok, writable_insert, Wdb).
  unfold console_log, emit. simpl. rewrite <- !app_assoc. reflexivity.
Qed.


Lemma plain_new_task (id : number) (title : string) (status : json) :
  plain_json status -> plain_json (new_task id title status).
Proof.
  intros Hs. constructor.
  - simpl. distinct_keys.
  - repeat constructor. exact Hs.
Qed.



(** Why the counter is supposed below [2^53]: at [2^53] the sum
    [2^53 + 1] is the double [2^53], so [add] assigns the id [2^53] and
    leaves the counter there. *)
Lemma add_at_highest_counter :
  stored_tasks highest_world [] /\
  stored_counter highest_world 9007199254740992 /\
  exists w',
    add (AddOptions "A" OptAbsent) highest_world = (Ret tt, w') /\
    stored_tasks w' [Task 9007199254740992 "A" "todo"] /\
    stored_counter w' 9007199254740992.
Proof.
  split; [reflexivity|]. split; [vm_compute; reflexivity|].
  eexists. split; [vm_compute; reflexivity|].
  split; vm_compute; reflexivity.
Qed.

(** C7 (amended).  A successful [add] issues two writes, first the counter
    document and then the task document (lines 82 and 83). *)
Theorem add_writes_counter_first (w : world) (l : list task) (c : number)
  (options : add_options) :
  stored_tasks w l -> stored_counter w c ->
  writable w db_json -> writable w counter_json ->
  (forall t, t ∈ l -> task_title t <> add_title options) ->
  exists w' ctr db,
    add options w = (Ret tt, w') /\
    writes (events w') = writes (events w) ++ [(counter_json, ctr); (db_json, db)].
Proof.
  intros Hdb Hctr Wdb Wctr Hfresh.
  destruct (counter_up c) as (c' & Hup & _).
  pose proof (add_fresh_run w l c c' options Hdb Hctr Wdb Wctr Hfresh Hup) as Hrun.
  cbv zeta in Hrun. eexists _, _, _. split; [exact Hrun|].
  simpl. rewrite writes_app. reflexivity.
Qed.

(** C7 as it is written fails: on the empty store, [add] writes
    [counter.json] before [db.json]. *)
Lemma add_writes_order_observed :
  exists w',
    add (AddOptions "A" OptAbsent) empty_world = (Ret tt, w') /\
    map fst (writes (events w')) = ["counter.json"; "db.json"] /\
    map fst (writes (events w')) <> ["db.json"; "counter.json"].
Proof.
  eexists. split; [vm_compute; reflexivity|].
  split; [reflexivity | discriminate].
Qed.

Lemma splice_middle {A : Type} (l1 l2 : list A) (x : A) :
  take (length l1) (l1 ++ x :: l2) ++ drop (S (length l1)) (l1 ++ x :: l2) = l1 ++ l2.
Proof.
  rewrite take_app_length.
  change (l1 ++ x :: l2) with (l1 ++ [x] ++ l2).
  rewrite app_assoc, drop_app_length'; [reflexivity|].
  rewrite length_app. simpl. lia.
Qed.

(** A run of [delete] with the id of a stored task: [t] is the first task
    with that id, [c'] the counter after [--]. *)
Lemma delete_first_run (w : world) (l1 l2 : list task) (t : task) (c c' : number)
  (options : delete_options) :
  stored_tasks w (l1 ++ t :: l2) -> stored_counter w c ->
  writable w db_json -> writable w counter_json ->
  (forall t', t' ∈ l1 -> parseInt (delete_id options) <> Some (JSVal (JNum (task_id t')))) ->
  parseInt (delete_id options) = Some (JSVal (JNum (task_id t))) ->
  round_to_number (to_Z c + -1) = Some c' ->
  let db := tasks_json (l1 ++ l2) in
  let ctr := counter_doc c' in
  delete options w =
  (Ret tt,
   World (<[counter_json := File (JSON_stringify ctr)]>
            (<[db_json := File (JSON_stringify db)]> (files w)))
         (events w ++ [EWrite db_json (JSON_stringify db);
                       EWrite counter_json (JSON_stringify ctr);
                       ELog [chalk Green msg_updated];
                       ELog [Text [(None, msg_current)]; Value db]])).
Proof.
  intros Hdb Hctr Wdb Wctr Hl1 Ht Hdown db ctr. unfold delete. apply try_catch_ret.
  rewrite (bind_ret _ _ _ _ _ Hdb).
  rewrite (bind_ret _ _ _ _ _ (Array_findIndex_first _ l1 l2 t w Hl1 Ht)).
  rewrite (bind_ret _ _ w w db).
  2:{ unfold Array_splice1, tasks_json, db, bind, as_array, ret. 
      rewrite <- (length_map task_json l1), map_app. cbn [map].
      now rewrite splice_middle, <- map_app. }
  rewrite (bind_ret _ _ _ _ _ Hctr).
  rewrite (bind_ret _ _ _ _ _ (step_counter_doc c c' (-1) w Hdown)).
  rewrite (bind_ret _ _ _ _ _ (writeFile_ok w db_json _ Wdb)).
  erewrite bind_ret by (apply writeFile_ok, writable_insert, Wctr).
  unfold console_log, emit, bind. simpl. rewrite <- !app_assoc. reflexivity.
Qed.

(** C4 (amended).  [delete] with an id that some stored task has, the
    stored counter being above [-2^53], removes one entry, the first task
    in stored order with that id, keeps every other task in its place
    relative to the others, and lowers the counter by one.  Both documents
    are supposed writable. *)
Theorem delete_first_match (w : world) (l1 l2 : list task) (t : task)
  (c : number) (id : string) :
  stored_tasks w (l1 ++ t :: l2) -> stored_counter w c ->
  writable w db_json -> writable w counter_json ->
  (forall t', t' ∈ l1 -> parseInt id <> Some (JSVal (JNum (task_id t')))) ->
  parseInt id = Some (JSVal (JNum (task_id t))) ->
  (- two53 < to_Z c)%Z ->
  exists w' c',
    delete (DeleteOptions id) w = (Ret tt, w') /\
    stored_tasks w' (l1 ++ l2) /\
    length (l1 ++ l2) + 1 = length (l1 ++ t :: l2) /\
    to_Z c' = (to_Z c - 1)%Z /\
    stored_counter w' c'.
Proof.
  intros Hdb Hctr Wdb Wctr Hl1 Ht Hc.
  destruct (counter_down c) as (c' & Hdown & Hc').
  apply Z.ltb_lt in Hc. rewrite Hc in Hc'.
  pose proof (delete_first_run w l1 l2 t c c' (DeleteOptions id)
                Hdb Hctr Wdb Wctr Hl1 Ht Hdown) as Hrun.
  cbv zeta in Hrun. eexists _, c'. split; [exact Hrun|]. split; [|split; [|split]].
  - apply readJSONFile_written; [|constructor; apply plain_tasks].
    simpl. rewrite lookup_insert_ne by (apply not_eq_sym, db_counter_paths).
    apply lookup_insert_eq.
  - rewrite !length_app. simpl. lia.
  - exact Hc'.
  - apply readJSONFile_written; [apply lookup_insert_eq | apply plain_counter].
Qed.

(** C4 as it is written fails for the counter [-2^53]: the difference
    [-2^53 - 1] is the double [-2^53], so [delete] removes the task and
    leaves the counter as it was; no stored counter is one less. *)
Lemma delete_at_lowest_counter :
  stored_tasks lowest_world [Task 1 "A" "todo"] /\
  stored_counter lowest_world (-9007199254740992) /\
  exists w',
    delete (DeleteOptions "1") lowest_world = (Ret tt, w') /\
    stored_tasks w' [] /\
    stored_counter w' (-9007199254740992) /\
    ~ (exists c', stored_counter w' c' /\ to_Z c' = (-9007199254740992 - 1)%Z).
Proof.
  split; [vm_compute; reflexivity|]. split; [vm_compute; reflexivity|].
  eexists. split; [vm_compute; reflexivity|].
  split; [vm_compute; reflexivity|]. split; [vm_compute; reflexivity|].
  intros (c' & _ & Hc'). pose proof (to_Z_range c') as Hr.
  unfold two53 in Hr. lia.
Qed.

(** ** Listing and filtering *)

Lemma said_said (w : world) (a b : list event) : said (said w a) b = said w (a ++ b).
Proof. unfold said. simpl. now rewrite app_assoc. Qed.

Lemma said_nil (w : world) : said w [] = w.
Proof. destruct w. unfold said. simpl. now rewrite app_nil_r. Qed.

Lemma forEach_loop_tasks (l : list task) (w : world) :
  forEach_loop (fun element => console_log [Value element]) (map task_json l) w =
  (Ret tt, said w (map listed l)).
Proof.
  revert w. induction l as [|t l IH]; intros w.
  - simpl. now rewrite said_nil.
  - cbn [map forEach_loop].
    rewrite (bind_ret _ _ w (said w [listed t]) tt) by reflexivity.
    rewrite IH, said_said. reflexivity.
Qed.

(** The numeral that the program prints is the one of the Standard
    Library. *)
Lemma string_of_uint_library (u : uint) :
  string_of_uint u = NilEmpty.string_of_uint u.
Proof. induction u; simpl; rewrite ?IHu; reflexivity. Qed.

Lemma decimal_numeral (n : Z) : decimal n = numeral n.
Proof.
  destruct n as [|p|p]; [reflexivity | |];
    unfold numeral; simpl; rewrite string_of_uint_library;
    pose proof (DecimalPos.Unsigned.to_uint_nonnil p) as Hnil;
    destruct (Pos.to_uint p); first [congruence | reflexivity].
Qed.

Lemma filter_callback_task (options : filter_options) (t : task) (w : world) :
  filter_callback options (task_json t) w =
  (Ret false,
   said w (if strict_equals (JSVal (JStr (task_status t))) (filter_wanted options)
           then shown t else [])).
Proof.
  unfold filter_callback.
  rewrite (bind_ret _ _ w w (JSVal (JStr (task_status t)))) by reflexivity.
  destruct (strict_equals _ _).
  - unfold bind, emit, console_log, said, shown, field_line, chalk, separator.
    simpl. unfold Number_toString. rewrite decimal_numeral, <- !app_assoc.
    reflexivity.
  - unfold bind, ret. simpl. now rewrite said_nil.
Qed.

Lemma filter_loop_tasks (options : filter_options) (l : list task) (w : world) :
  filter_loop (filter_callback options) (map task_json l) w =
  (Ret [],
   said w (flat_map shown
             (List.filter
                (fun t => strict_equals (JSVal (JStr (task_status t)))
                                        (filter_wanted options)) l))).
Proof.
  revert w. induction l as [|t l IH]; intros w.
  - simpl. now rewrite said_nil.
  - cbn [map filter_loop List.filter].
    rewrite (bind_ret _ _ _ _ _ (filter_callback_task options t w)).
    rewrite (bind_ret _ _ _ _ _ (IH _)). rewrite said_said.
    destruct (strict_equals _ _); reflexivity.
Qed.

(** C5.  [filter] with the status [s] shows exactly the tasks that [list]
    shows and whose status is [s], in the same order. *)
Theorem filter_is_sublist_of_list (w : world) (l : list task) (s : string) :
  stored_tasks w l ->
  list_tasks w = (Ret tt, said w (map listed l)) /\
  filter_tasks (FilterOptions (Some s)) w =
  (Ret tt, said w (flat_map shown
                     (List.filter (fun t => String.eqb (task_status t) s) l))).
Proof.
  intros Hdb. split.
  - unfold list_tasks. rewrite (bind_ret _ _ _ _ _ Hdb).
    exact (forEach_loop_tasks l w).
  - unfold filter_tasks. rewrite (bind_ret _ _ _ _ _ Hdb).
    unfold Array_filter, tasks_json. cbn [as_array].
    unfold bind at 1 2. unfold ret at 1.
    rewrite (bind_ret _ _ _ _ _ (filter_loop_tasks _ l w)). reflexivity.
Qed.

(** ** Saving and loading *)

(** C6.  Saving a task collection the way the commands do, with
    [writeFile ("db.json", JSON.stringify (db, null, 4))], and then loading
    it with [readJSONFile ("db.json", [])] gives the collection back:
    parsing what was serialized is the identity on task collections. *)
Theorem save_then_load (w : world) (l : list task) :
  writable w db_json ->
  JSON_parse (JSON_stringify (tasks_json l)) = POk (tasks_json l) /\
  exists w',
    writeFile db_json (JSON_stringify (tasks_json l)) w = (Ret tt, w') /\
    readJSONFile db_json empty_db w' = (Ret (tasks_json l), w').
Proof.
  intros Wdb.
  assert (Hplain : plain_json (tasks_json l)) by (constructor; apply plain_tasks).
  split; [now apply JSON_parse_stringify|].
  eexists. split; [now apply writeFile_ok|].
  apply readJSONFile_written; [apply lookup_insert_eq | exact Hplain].
Qed.

(** C8.  When [counter.json] does not exist or is empty, reading it gives
    the counter record [{ counter: 0 }]; when [db.json] does not exist or is
    empty, reading it gives the empty array; neither raises an error. *)
Theorem load_defaults (w : world) :
  (files w !! counter_json = None \/ files w !! counter_json = Some (File "") ->
   readJSONFile counter_json zero_counter w = (Ret (JObj [("counter", JNum 0)]), w)) /\
  (files w !! db_json = None \/ files w !! db_json = Some (File "") ->
   readJSONFile db_json empty_db w = (Ret (JArr []), w)).
Proof.
  split; intros [H|H];
    first [now apply readJSONFile_absent | now apply readJSONFile_empty].
Qed.

(** ** Malformed documents *)

Lemma readJSONFile_malformed (w : world) (path text : string) (default : json) :
  files w !! path = Some (File text) -> text <> "" -> JSON_parse text = PSyntax ->
  readJSONFile path default w = (Throw SyntaxError, w).
Proof.
  intros H Htext Hparse. rewrite (readJSONFile_text w path text default H Htext).
  now rewrite Hparse.
Qed.

Lemma report_said (msg : string) (e : error) (w : world) :
  report msg e w = (Ret tt, said w (reported msg e)).
Proof.
  unfold report, bind, console_error, emit, said. simpl.
  now rewrite <- app_assoc.
Qed.

Lemma malformed_counter_add (w : world) (l : list task) (text : string)
  (options : add_options) :
  files w !! counter_json = Some (File text) -> text <> "" ->
  JSON_parse text = PSyntax ->
  stored_tasks w l ->
  (forall t, t ∈ l -> task_title t <> add_title options) ->
  add options w = (Ret tt, said w (reported msg_add_failed SyntaxError)).
Proof.
  intros H Htext Hparse Hdb Hfresh. unfold add.
  erewrite try_catch_throw; [apply report_said|].
  rewrite (bind_ret _ _ _ _ _ Hdb).
  rewrite (bind_ret _ _ _ _ _ (Array_some_tasks _ l w)).
  rewrite (existsb_title_false _ _ Hfresh).
  apply bind_throw. now apply (readJSONFile_malformed w counter_json text).
Qed.

Lemma malformed_counter_delete (w : world) (l1 l2 : list task) (t : task)
  (text : string) (options : delete_options) :
  files w !! counter_json = Some (File text) -> text <> "" ->
  JSON_parse text = PSyntax ->
  stored_tasks w (l1 ++ t :: l2) ->
  (forall t', t' ∈ l1 -> parseInt (delete_id options) <> Some (JSVal (JNum (task_id t')))) ->
  parseInt (delete_id options) = Some (JSVal (JNum (task_id t))) ->
  delete options w = (Ret tt, said w (reported msg_delete_failed SyntaxError)).
Proof.
  intros H Htext Hparse Hdb Hl1 Ht. unfold delete.
  erewrite try_catch_throw; [apply report_said|].
  rewrite (bind_ret _ _ _ _ _ Hdb).
  rewrite (bind_ret _ _ _ _ _ (Array_findIndex_first _ l1 l2 t w Hl1 Ht)).
  rewrite (bind_ret _ _ w w (tasks_json (l1 ++ l2))).
  2:{ unfold Array_splice1, tasks_json, bind, as_array, ret.
      rewrite <- (length_map task_json l1), map_app. cbn [map].
      now rewrite splice_middle, <- map_app. }
  apply bind_throw. now apply (readJSONFile_malformed w counter_json text).
Qed.

(** C9.  A document that is present and is not valid JSON makes
    [readJSONFile] throw the [SyntaxError] of [JSON.parse], whatever the
    default value.  The command that was reading the document ends there:
    [add], [edit] and [delete] print the error, [list] and [filter] are
    rejected with it, and none of them writes a file or goes on with a
    default value. *)
Theorem malformed_document_is_fatal (w : world) (path text : string) :
  files w !! path = Some (File text) -> text <> "" -> JSON_parse text = PSyntax ->
  (forall default, readJSONFile path default w = (Throw SyntaxError, w)) /\
  (path = db_json ->
   (forall options,
      add options w = (Ret tt, said w (reported msg_add_failed SyntaxError))) /\
   (forall options,
      edit options w = (Ret tt, said w (reported msg_edit_failed SyntaxError))) /\
   (forall options,
      delete options w = (Ret tt, said w (reported msg_delete_failed SyntaxError))) /\
   list_tasks w = (Throw SyntaxError, w) /\
   (forall options, filter_tasks options w = (Throw SyntaxError, w))) /\
  (path = counter_json ->
   (forall l options,
      stored_tasks w l ->
      (forall t, t ∈ l -> task_title t <> add_title options) ->
      add options w = (Ret tt, said w (reported msg_add_failed SyntaxError))) /\
   (forall l1 t l2 options,
      stored_tasks w (l1 ++ t :: l2) ->
      (forall t', t' ∈ l1 ->
                  parseInt (delete_id options) <> Some (JSVal (JNum (task_id t')))) ->
      parseInt (delete_id options) = Some (JSVal (JNum (task_id t))) ->
      delete options w = (Ret tt, said w (reported msg_delete_failed SyntaxError)))) /\
  (forall msg,
     files (said w (reported msg SyntaxError)) = files w /\
     writes (events (said w (reported msg SyntaxError))) = writes (events w)).
Proof.
  intros H Htext Hparse.
  assert (Hread : forall default, readJSONFile path default w = (Throw SyntaxError, w))
    by (intros default; now apply (readJSONFile_malformed w path text)).
  split; [exact Hread|]. split; [|split].
  - intros ->. repeat split.
    + intros options. unfold add.
      rewrite (try_catch_throw _ _ _ _ _ (bind_throw _ _ _ _ _ (Hread _))).
      apply report_said.
    + intros options. unfold edit.
      rewrite (try_catch_throw _ _ _ _ _ (bind_throw _ _ _ _ _ (Hread _))).
      apply report_said.
    + intros options. unfold delete.
      rewrite (try_catch_throw _ _ _ _ _ (bind_throw _ _ _ _ _ (Hread _))).
      apply report_said.
    + unfold list_tasks. apply bind_throw, Hread.
    + intros options. unfold filter_tasks. apply bind_throw, Hread.
  - intros ->. split.
    + intros l options. now apply (malformed_counter_add w l text).
    + intros l1 t l2 options. now apply (malformed_counter_delete w l1 l2 t text).
  - intros msg. split; [reflexivity|].
    simpl. rewrite writes_app. apply app_nil_r.
Qed.

(** ** The theorems at work on the sample stores *)

Lemma sample_writable (path : string) : writable sample_world path.
Proof.
  intros c H. unfold sample_world in H. simpl in H.
  apply lookup_insert_Some in H as [[_ H]|[_ H]]; [discriminate|].
  apply lookup_singleton_Some in H as [_ H]. discriminate.
Qed.

Lemma add_existing_title_witness :
  stored_tasks sample_world sample_tasks /\
  (exists t, t ∈ sample_tasks /\ task_title t = "A") /\
  exists w',
    add (AddOptions "A" (OptStr "doing")) sample_world = (Ret tt, w') /\
    files w' = files sample_world.
Proof.
  assert (H1 : stored_tasks sample_world sample_tasks) by (vm_compute; reflexivity).
  assert (H2 : exists t, t ∈ sample_tasks /\ task_title t = "A")
    by (exists (Task 1 "A" "todo"); split; [left | reflexivity]).
  split; [exact H1|]. split; [exact H2|].
  destruct (add_existing_title sample_world sample_tasks
              (AddOptions "A" (OptStr "doing")) H1 H2)
    as (w' & Hrun & _ & Hfiles & _).
  exists w'. split; assumption.
Defined.

Lemma unknown_id_not_found_witness :
  stored_tasks sample_world sample_tasks /\
  (sample_tasks <> [] -> parseInt "7" <> None) /\
  (forall t, t ∈ sample_tasks -> parseInt "7" <> Some (JSVal (JNum (task_id t)))) /\
  exists w',
    edit (EditOptions "C" "7" OptAbsent) sample_world = (Ret tt, w') /\
    delete (DeleteOptions "7") sample_world = (Ret tt, w') /\
    files w' = files sample_world.
Proof.
  assert (H1 : stored_tasks sample_world sample_tasks) by (vm_compute; reflexivity).
  assert (H2 : forall t, t ∈ sample_tasks -> parseInt "7" <> Some (JSVal (JNum (task_id t)))).
  { intros t Ht. unfold sample_tasks in Ht.
    apply elem_of_cons in Ht as [->|Ht]; [vm_compute; discriminate|].
    apply elem_of_cons in Ht as [->|Ht]; [vm_compute; discriminate|].
    now apply elem_of_nil in Ht. }
  assert (H3 : sample_tasks <> [] -> parseInt "7" <> None)
    by (intros _; vm_compute; discriminate).
  split; [exact H1|]. split; [exact H3|]. split; [exact H2|].
  destruct (unknown_id_not_found sample_world sample_tasks "7" H1 H3 H2)
    as (w' & Hedit & Hdelete & _ & Hfiles & _).
  exists w'. split; [apply Hedit | split; assumption].
Defined.

Lemma nan_id_not_found_witness :
  stored_tasks sample_world sample_tasks /\
  parseInt "one" = Some JSNaN /\
  exists w',
    edit (EditOptions "C" "one" OptAbsent) sample_world = (Ret tt, w') /\
    delete (DeleteOptions "one") sample_world = (Ret tt, w') /\
    files w' = files sample_world.
Proof.
  assert (H1 : stored_tasks sample_world sample_tasks) by (vm_compute; reflexivity).
  assert (H2 : parseInt "one" = Some JSNaN) by reflexivity.
  split; [exact H1|]. split; [exact H2|].
  destruct (nan_id_not_found sample_world sample_tasks "one" H1 H2)
    as (w' & Hedit & Hdelete & _ & Hfiles & _).
  exists w'. split; [apply Hedit | split; assumption].
Defined.


Lemma add_writes_counter_first_witness :
  stored_tasks empty_world [] /\ stored_counter empty_world 0 /\
  writable empty_world db_json /\ writable empty_world counter_json /\
  (forall t : task, t ∈ [] -> task_title t <> "A") /\
  exists w' ctr db,
    add (AddOptions "A" OptAbsent) empty_world = (Ret tt, w') /\
    writes (events w') = [(counter_json, ctr); (db_json, db)].
Proof.
  assert (H1 : stored_tasks empty_world []) by reflexivity.
  assert (H2 : stored_counter empty_world 0) by reflexivity.
  assert (H3 : forall path, writable empty_world path)
    by (intros path c H; vm_compute in H; discriminate).
  assert (H4 : forall t : task, t ∈ [] -> task_title t <> "A")
    by (intros t Ht; now apply elem_of_nil in Ht).
  repeat (split; [first [exact H1 | exact H2 | exact H4 | apply H3]|]).
  exact (add_writes_counter_first empty_world [] 0 (AddOptions "A" OptAbsent)
           H1 H2 (H3 _) (H3 _) H4).
Defined.

Lemma delete_first_match_witness :
  stored_tasks sample_world ([Task 1 "A" "todo"] ++ Task 2 "B" "done" :: []) /\
  stored_counter sample_world 2 /\
  writable sample_world db_json /\ writable sample_world counter_json /\
  (forall t', t' ∈ [Task 1 "A" "todo"] -> parseInt "2" <> Some (JSVal (JNum (task_id t')))) /\
  parseInt "2" = Some (JSVal (JNum 2)) /\
  (- two53 < to_Z 2)%Z /\
  exists w' c',
    delete (DeleteOptions "2") sample_world = (Ret tt, w') /\
    stored_tasks w' [Task 1 "A" "todo"] /\
    to_Z c' = 1%Z /\
    stored_counter w' c'.
Proof.
  assert (H1 : stored_tasks sample_world ([Task 1 "A" "todo"] ++ Task 2 "B" "done" :: []))
    by (vm_compute; reflexivity).
  assert (H2 : stored_counter sample_world 2) by (vm_compute; reflexivity).
  assert (H3 : forall t', t' ∈ [Task 1 "A" "todo"] ->
                          parseInt "2" <> Some (JSVal (JNum (task_id t')))).
  { intros t Ht. apply elem_of_cons in Ht as [->|Ht]; [vm_compute; discriminate|].
    now apply elem_of_nil in Ht. }
  assert (H4 : parseInt "2" = Some (JSVal (JNum 2))) by reflexivity.
  assert (H5 : (- two53 < to_Z 2)%Z) by reflexivity.
  repeat (split; [first [exact H1 | exact H2 | exact H3 | exact H4 | exact H5
                        | apply sample_writable]|]).
  destruct (delete_first_match sample_world [Task 1 "A" "todo"] [] (Task 2 "B" "done")
              2 "2" H1 H2 (sample_writable _) (sample_writable _) H3 H4 H5)
    as (w' & c' & Hrun & Hdb & _ & Hc' & Hctr).
  exists w', c'. repeat split; assumption.
Defined.

Lemma filter_is_sublist_of_list_witness :
  stored_tasks sample_world sample_tasks /\
  list_tasks sample_world =
    (Ret tt, said sample_world [listed (Task 1 "A" "todo"); listed (Task 2 "B" "done")]) /\
  filter_tasks (FilterOptions (Some "done")) sample_world =
    (Ret tt,
     said sample_world
       [ELog [Text [(Some RedBright, "id"); (None, ": "); (Some Blue, "2")]];
        ELog [Text [(Some RedBright, "title"); (None, ": "); (Some Blue, "B")]];
        ELog [Text [(Some RedBright, "status"); (None, ": "); (Some Blue, "done")]];
        ELog [Text [(Some YellowBright,
                     "==============================================")]]]).
Proof.
  assert (H1 : stored_tasks sample_world sample_tasks) by (vm_compute; reflexivity).
  split; [exact H1|].
  destruct (filter_is_sublist_of_list sample_world sample_tasks "done" H1)
    as [Hlist Hfilter].
  split; [exact Hlist | exact Hfilter].
Defined.

Lemma save_then_load_witness :
  writable empty_world db_json /\
  JSON_parse (JSON_stringify (tasks_json sample_tasks)) = POk (tasks_json sample_tasks) /\
  exists w',
    writeFile db_json (JSON_stringify (tasks_json sample_tasks)) empty_world = (Ret tt, w') /\
    readJSONFile db_json empty_db w' = (Ret (tasks_json sample_tasks), w').
Proof.
  assert (H1 : writable empty_world db_json)
    by (intros c H; vm_compute in H; discriminate).
  split; [exact H1|]. exact (save_then_load empty_world sample_tasks H1).
Defined.

Lemma load_defaults_witness :
  files empty_world !! counter_json = None /\
  files empty_world !! db_json = None /\
  readJSONFile counter_json zero_counter empty_world =
    (Ret (JObj [("counter", JNum 0)]), empty_world) /\
  readJSONFile db_json empty_db empty_world = (Ret (JArr []), empty_world).
Proof.
  assert (H1 : files empty_world !! counter_json = None) by reflexivity.
  assert (H2 : files empty_world !! db_json = None) by reflexivity.
  split; [exact H1|]. split; [exact H2|].
  destruct (load_defaults empty_world) as [Hctr Hdb].
  split; [apply Hctr | apply Hdb]; left; assumption.
Defined.

Lemma malformed_document_is_fatal_witness :
  files broken_world !! db_json = Some (File "[{") /\
  "[{" <> "" /\
  JSON_parse "[{" = PSyntax /\
  readJSONFile db_json empty_db broken_world = (Throw SyntaxError, broken_world) /\
  add (AddOptions "A" OptAbsent) broken_world =
    (Ret tt, said broken_world (reported msg_add_failed SyntaxError)) /\
  list_tasks broken_world = (Throw SyntaxError, broken_world).
Proof.
  assert (H1 : files broken_world !! db_json = Some (File "[{")) by reflexivity.
  assert (H2 : "[{" <> "") by discriminate.
  assert (H3 : JSON_parse "[{" = PSyntax) by reflexivity.
  repeat (split; [first [exact H1 | exact H2 | exact H3]|]).
  destruct (malformed_document_is_fatal broken_world db_json "[{" H1 H2 H3)
    as (Hread & Hdb & _).
  destruct (Hdb eq_refl) as (Hadd & _ & _ & Hlist & _).
  split; [apply Hread | split; [apply Hadd | exact Hlist]].
Defined.

(** The scenario of the specification: from nothing, [add] of "A" stores
    task 1 with status "todo"; a second [add] of "A" is refused; [edit] of
    id 1 to status "doing" keeps the id and the title; [delete] of id 1
    leaves the collection empty and the counter at 0. *)
Example spec_scenario :
  let w1 := after (add (AddOptions "A" OptAbsent)) empty_world in
  let w2 := after (add (AddOptions "A" OptAbsent)) w1 in
  let w3 := after (edit (EditOptions "" "1" (OptStr "doing"))) w2 in
  let w4 := after (delete (DeleteOptions "1")) w3 in
  stored_tasks w1 [Task 1 "A" "todo"] /\ stored_counter w1 1 /\
  files w2 = files w1 /\
  last (events w2) = Some (ELog [chalk Yellow msg_exists]) /\
  stored_tasks w3 [Task 1 "A" "doing"] /\ stored_counter w3 1 /\
  stored_tasks w4 [] /\ stored_counter w4 0.
Proof. cbv zeta. repeat apply conj; vm_compute; reflexivity. Qed.

(** * Further properties of the commands *)

(** ** Editing a stored task *)

Lemma lookup_middle_map (l1 l2 : list task) (t : task) :
  (map task_json (l1 ++ t :: l2)) !! length l1 = Some (task_json t).
Proof.
  rewrite map_app. cbn [map]. rewrite <- (length_map task_json l1).
  apply list_lookup_middle. reflexivity.
Qed.

Lemma insert_middle_map (l1 l2 : list task) (t : task) (x : json) :
  <[length l1 := x]> (map task_json l1 ++ task_json t :: map task_json l2) =
  map task_json l1 ++ x :: map task_json l2.
Proof.
  rewrite <- (length_map task_json l1) at 1.
  rewrite <- (Nat.add_0_r (length (map task_json l1))).
  now rewrite insert_app_r.
Qed.

Lemma set_element_prop_middle (l1 l2 : list json) (o : list (string * json))
  (k : string) (x : json) (w : world) :
  set_element_prop (JArr (l1 ++ JObj o :: l2)) (length l1) k x w =
  (Ret (JArr (l1 ++ JObj (obj_set k x o) :: l2)), w).
Proof.
  unfold set_element_prop, bind, as_array, ret.
  rewrite list_lookup_middle by reflexivity. simpl.
  rewrite <- (Nat.add_0_r (length l1)). now rewrite insert_app_r.
Qed.

Lemma edit_title_step (L1 L2 : list json) (o : list (string * json))
  (title : string) (k' : json -> M unit) (w : world) :
  bind (if negb (str_is_empty title)
        then set_element_prop (JArr (L1 ++ JObj o :: L2)) (length L1) "title" (JStr title)
        else ret (JArr (L1 ++ JObj o :: L2))) k' w =
  k' (JArr (L1 ++ JObj (if str_is_empty title then o
                        else obj_set "title" (JStr title) o) :: L2)) w.
Proof.
  destruct (str_is_empty title); apply bind_ret;
    [reflexivity | apply set_element_prop_middle].
Qed.

Lemma edit_status_step (L1 L2 : list json) (o : list (string * json))
  (st : optval) (k' : json -> M unit) (w : world) :
  bind (if opt_truthy st
        then x <- js_to_json (opt_value st) ;;
             set_element_prop (JArr (L1 ++ JObj o :: L2)) (length L1) "status" x
        else ret (JArr (L1 ++ JObj o :: L2))) k' w =
  k' (JArr (L1 ++ JObj (match st with
                        | OptAbsent => o
                        | OptFlag => obj_set "status" (JBool true) o
                        | OptStr s => if str_is_empty s then o
                                      else obj_set "status" (JStr s) o
                        end) :: L2)) w.
Proof.
  destruct st as [| |s]; cbn [opt_truthy opt_value js_to_json].
  - now apply bind_ret.
  - apply bind_ret. rewrite (bind_ret _ _ w w (JBool true)) by reflexivity.
    apply set_element_prop_middle.
  - destruct (str_is_empty s); cbn [negb]; apply bind_ret; [reflexivity|].
    rewrite (bind_ret _ _ w w (JStr s)) by reflexivity.
    apply set_element_prop_middle.
Qed.

(** A run of [edit] with the id of a stored task: [t] is the first task
    with that id. *)
Lemma edit_first_run (w : world) (l1 l2 : list task) (t : task)
  (options : edit_options) :
  stored_tasks w (l1 ++ t :: l2) -> writable w db_json ->
  (forall t', t' ∈ l1 -> parseInt (edit_id options) <> Some (JSVal (JNum (task_id t')))) ->
  parseInt (edit_id options) = Some (JSVal (JNum (task_id t))) ->
  let db := JArr (map task_json l1 ++ edited_task t options :: map task_json l2) in
  edit options w =
  (Ret tt,
   World (<[db_json := File (JSON_stringify db)]> (files w))
         (events w ++ [EWrite db_json (JSON_stringify db);
                       ELog [chalk Green msg_updated];
                       ELog [Text [(None, msg_current)]; Value db]])).
Proof.
  intros Hdb Wdb Hl1 Ht db. unfold edit. apply try_catch_ret.
  rewrite (bind_ret _ _ _ _ _ Hdb).
  rewrite (bind_ret _ _ _ _ _ (Array_findIndex_first _ l1 l2 t w Hl1 Ht)).
  unfold tasks_json. rewrite map_app. cbn [map].
  rewrite <- (length_map task_json l1).
  unfold task_json at 2 4.
  rewrite edit_title_step, edit_status_step.
  match goal with
  | |- context [JArr (?L1 ++ JObj ?o :: ?L2)] =>
      replace (JArr (L1 ++ JObj o :: L2)) with db
  end.
  - rewrite (bind_ret _ _ _ _ _ (writeFile_ok w db_json _ Wdb)).
    unfold console_log, emit, bind. simpl. rewrite <- !app_assoc. reflexivity.
  - unfold db, edited_task, new_task. do 3 f_equal.
    destruct (edit_status options) as [| |s]; [| |destruct (str_is_empty s)];
      destruct (str_is_empty (edit_title options)); reflexivity.
Qed.

Lemma plain_edited_task (t : task) (options : edit_options) :
  plain_json (edited_task t options).
Proof.
  apply plain_new_task.
  destruct (edit_status options) as [| |s]; [| |destruct (str_is_empty s)];
    constructor.
Qed.

(** X1.  [edit] with an id that some stored task has rewrites the first
    task with that id and no other: its id stays, its title becomes the
    given one unless that is empty, its status becomes the given one unless
    that is absent or empty.  The task document is written once; the
    counter document is neither written nor changed. *)
Theorem edit_first_match (w : world) (l1 l2 : list task) (t : task)
  (options : edit_options) :
  stored_tasks w (l1 ++ t :: l2) -> writable w db_json ->
  (forall t', t' ∈ l1 -> parseInt (edit_id options) <> Some (JSVal (JNum (task_id t')))) ->
  parseInt (edit_id options) = Some (JSVal (JNum (task_id t))) ->
  exists w' data,
    edit options w = (Ret tt, w') /\
    loads w' db_json empty_db
      (JArr (map task_json l1 ++ edited_task t options :: map task_json l2)) /\
    writes (events w') = writes (events w) ++ [(db_json, data)] /\
    files w' !! counter_json = files w !! counter_json.
Proof.
  intros Hdb Wdb Hl1 Ht.
  pose proof (edit_first_run w l1 l2 t options Hdb Wdb Hl1 Ht) as Hrun.
  cbv zeta in Hrun. eexists _, _. split; [exact Hrun|]. split; [|split].
  - apply readJSONFile_written; [apply lookup_insert_eq|].
    constructor. apply Forall_app. split; [apply plain_tasks|].
    constructor; [apply plain_edited_task | apply plain_tasks].
  - simpl. rewrite writes_app. reflexivity.
  - simpl. apply lookup_insert_ne, db_counter_paths.
Qed.

(** When only a status is given (the title is empty, the status a
    non-empty string), the stored task keeps its id and its title. *)
Lemma edited_task_status_only (t : task) (id s : string) :
  s <> "" ->
  edited_task t (EditOptions "" id (OptStr s)) =
  task_json (Task (task_id t) (task_title t) s).
Proof. intros Hs. destruct s; [congruence | reflexivity]. Qed.

(** ** Commands that only read *)

Lemma read_only_ret {A : Type} (a : A) : read_only (ret a).
Proof. intros w. split; reflexivity. Qed.

Lemma read_only_throw {A : Type} (e : error) : read_only (@throw A e).
Proof. intros w. split; reflexivity. Qed.

Lemma read_only_unmodelled {A : Type} : read_only (@unmodelled A).
Proof. intros w. split; reflexivity. Qed.

Lemma read_only_bind {A B : Type} (m : M A) (k : A -> M B) :
  read_only m -> (forall a, read_only (k a)) -> read_only (bind m k).
Proof.
  intros Hm Hk w. unfold bind. specialize (Hm w).
  destruct (m w) as [[a|e|] w1]; simpl in Hm; try exact Hm.
  destruct (Hk a w1) as [H1 H2]. destruct Hm as [H3 H4].
  split; congruence.
Qed.

Lemma read_only_log (args : list printed) : read_only (console_log args).
Proof.
  intros w. split; [reflexivity|].
  simpl. rewrite writes_app. apply app_nil_r.
Qed.

Lemma read_only_readJSONFile (path : string) (default : json) :
  read_only (readJSONFile path default).
Proof.
  intros w. destruct (readJSONFile path default w) as [r w1] eqn:E.
  apply readJSONFile_world in E. subst. split; reflexivity.
Qed.

Lemma read_only_get_prop (v : json) (k : string) : read_only (get_prop v k).
Proof.
  destruct v; first [apply read_only_ret | apply read_only_throw].
Qed.

Lemma read_only_as_array (v : json) : read_only (as_array v).
Proof.
  destruct v; first [apply read_only_ret | apply read_only_throw].
Qed.

Lemma read_only_forEach (f : json -> M unit) (l : list json) :
  (forall x, read_only (f x)) -> read_only (forEach_loop f l).
Proof.
  intros Hf. induction l as [|x l IH]; [apply read_only_ret|].
  apply read_only_bind; auto.
Qed.

Lemma read_only_filter_loop (p : json -> M bool) (l : list json) :
  (forall x, read_only (p x)) -> read_only (filter_loop p l).
Proof.
  intros Hp. induction l as [|x l IH]; [apply read_only_ret|].
  cbn [filter_loop]. apply read_only_bind; [apply Hp|]. intros b.
  apply read_only_bind; [exact IH|]. intros kept. apply read_only_ret.
Qed.

Lemma read_only_for_entries (l : list (string * json)) :
  read_only (for_entries (fun e => emit (field_line e)) l).
Proof.
  induction l as [|e l IH]; [apply read_only_ret|].
  apply read_only_bind; [|intros _; exact IH].
  exact (read_only_log _).
Qed.

Lemma read_only_filter_callback (options : filter_options) (x : json) :
  read_only (filter_callback options x).
Proof.
  unfold filter_callback.
  apply read_only_bind; [apply read_only_get_prop|]. intros s.
  apply read_only_bind; [|intros _; apply read_only_ret].
  destruct (strict_equals s (filter_wanted options)); [|apply read_only_ret].
  apply read_only_bind; [apply read_only_for_entries|].
  intros _. apply read_only_log.
Qed.

(** X2.  [list] and [filter] only read: in every world, whatever
    [db.json] holds and however the command ends, the files are the same
    afterwards and no write was issued. *)
Theorem list_and_filter_read_only :
  read_only list_tasks /\ forall options, read_only (filter_tasks options).
Proof.
  split; [|intros options].
  - unfold list_tasks. apply read_only_bind; [apply read_only_readJSONFile|].
    intros db. unfold Array_forEach.
    apply read_only_bind; [apply read_only_as_array|]. intros l.
    apply read_only_forEach. intros x. apply read_only_log.
  - unfold filter_tasks. apply read_only_bind; [apply read_only_readJSONFile|].
    intros db. apply read_only_bind; [|intros _; apply read_only_ret].
    unfold Array_filter.
    apply read_only_bind; [apply read_only_as_array|]. intros l.
    apply read_only_bind; [|intros kept; apply read_only_ret].
    apply read_only_filter_loop, read_only_filter_callback.
Qed.

(** X3.  [filter] without [--status] shows nothing of a task collection:
    the option is [undefined], and every task has a status. *)
Theorem filter_without_status_shows_nothing (w : world) (l : list task) :
  stored_tasks w l ->
  filter_tasks (FilterOptions None) w = (Ret tt, w).
Proof.
  intros Hdb. unfold filter_tasks. rewrite (bind_ret _ _ _ _ _ Hdb).
  unfold Array_filter, tasks_json. cbn [as_array].
  unfold bind at 1 2. unfold ret at 1.
  rewrite (bind_ret _ _ _ _ _ (filter_loop_tasks _ l w)).
  unfold ret. f_equal.
  replace (List.filter _ l) with (@nil task); [apply said_nil|].
  clear Hdb. induction l; simpl; auto.
Qed.

(** ** Documents that cannot be used *)

Lemma all_fail_on_read (w : world) (e : error) :
  readJSONFile db_json empty_db w = (Throw e, w) -> all_fail_with w e.
Proof.
  intros Hread. repeat split.
  - intros options. unfold add.
    rewrite (try_catch_throw _ _ _ _ _ (bind_throw _ _ _ _ _ Hread)).
    apply report_said.
  - intros options. unfold edit.
    rewrite (try_catch_throw _ _ _ _ _ (bind_throw _ _ _ _ _ Hread)).
    apply report_said.
  - intros options. unfold delete.
    rewrite (try_catch_throw _ _ _ _ _ (bind_throw _ _ _ _ _ Hread)).
    apply report_said.
  - unfold list_tasks. apply bind_throw, Hread.
  - intros options. unfold filter_tasks. apply bind_throw, Hread.
Qed.

Lemma as_array_other (v : json) (w : world) :
  is_array v = false -> as_array v w = (Throw TypeError, w).
Proof. destruct v; simpl; intros H; try reflexivity; discriminate. Qed.

(** X4.  When [db.json] holds valid JSON that is not an array, every
    command fails with a [TypeError] at its first array method: [add],
    [edit] and [delete] print it, [list] and [filter] are rejected, and
    nothing is written. *)
Theorem non_array_document_fails (w : world) (v : json) :
  loads w db_json empty_db v -> is_array v = false ->
  all_fail_with w TypeError /\
  forall msg,
    files (said w (reported msg TypeError)) = files w /\
    writes (events (said w (reported msg TypeError))) = writes (events w).
Proof.
  intros Hdb Hv. pose proof (as_array_other v w Hv) as Harr.
  split; [repeat split|].
  - intros options. unfold add.
    erewrite try_catch_throw; [apply report_said|].
    rewrite (bind_ret _ _ _ _ _ Hdb). apply bind_throw.
    unfold Array_some. now apply bind_throw.
  - intros options. unfold edit.
    erewrite try_catch_throw; [apply report_said|].
    rewrite (bind_ret _ _ _ _ _ Hdb). apply bind_throw.
    unfold Array_findIndex. now apply bind_throw.
  - intros options. unfold delete.
    erewrite try_catch_throw; [apply report_said|].
    rewrite (bind_ret _ _ _ _ _ Hdb). apply bind_throw.
    unfold Array_findIndex. now apply bind_throw.
  - unfold list_tasks. rewrite (bind_ret _ _ _ _ _ Hdb).
    unfold Array_forEach. now apply bind_throw.
  - intros options. unfold filter_tasks. rewrite (bind_ret _ _ _ _ _ Hdb).
    apply bind_throw. unfold Array_filter. now apply bind_throw.
  - intros msg. split; [reflexivity|].
    simpl. rewrite writes_app. apply app_nil_r.
Qed.

(** X5.  A system error of [readFile] other than [ENOENT] is thrown again
    by [readJSONFile], whatever the default value; when it concerns
    [db.json], every command fails with it. *)
Theorem system_error_is_rethrown (w : world) (path code : string) :
  files w !! path = Some (Faulty code) -> code <> "ENOENT" ->
  (forall default, readJSONFile path default w = (Throw (SystemError code), w)) /\
  (path = db_json -> all_fail_with w (SystemError code)).
Proof.
  intros H Hcode.
  assert (Hread : forall default,
             readJSONFile path default w = (Throw (SystemError code), w)).
  { intros default. unfold readJSONFile, try_catch, bind, readFile. rewrite H.
    simpl. apply String.eqb_neq in Hcode. now rewrite Hcode. }
  split; [exact Hread|]. intros ->. apply all_fail_on_read, Hread.
Qed.

Lemma parse_value_empty (f : nat) : parse_value (S f) "" = PSyntax.
Proof. reflexivity. Qed.

(** X6.  A document that is not empty but holds white space only is not
    taken for an empty one: [JSON.parse] rejects it and [readJSONFile]
    throws the [SyntaxError] instead of returning the default value. *)
Theorem blank_document_is_malformed (w : world) (path text : string)
  (default : json) :
  files w !! path = Some (File text) -> text <> "" -> skip_ws text = "" ->
  JSON_parse text = PSyntax /\
  readJSONFile path default w = (Throw SyntaxError, w).
Proof.
  intros H Htext Hblank.
  assert (Hparse : JSON_parse text = PSyntax).
  { unfold JSON_parse. rewrite Hblank.
    replace (2 * String.length text + 2) with (S (2 * String.length text + 1)) by lia.
    reflexivity. }
  split; [exact Hparse|].
  now apply (readJSONFile_malformed w path text).
Qed.

(** X7.  Whatever value a command writes with
    [writeFile (path, JSON.stringify (v, null, 4))], [readJSONFile] reads
    back from that path, with any default value, provided the objects of
    [v] have distinct keys that are not array indices; the counter
    document [{ counter: c }] is such a value. *)
Theorem written_value_reads_back (w : world) (path : string) (v default : json) :
  writable w path -> plain_json v ->
  exists w',
    writeFile path (JSON_stringify v) w = (Ret tt, w') /\
    readJSONFile path default w' = (Ret v, w').
Proof.
  intros Hw Hv. eexists. split; [now apply writeFile_ok|].
  apply readJSONFile_written; [apply lookup_insert_eq | exact Hv].
Qed.

(** ** Sequences of commands *)

Lemma writable_insert2 (w : world) (path p1 p2 d1 d2 : string) (evs : list event) :
  writable w path ->
  writable (World (<[p1 := File d1]> (<[p2 := File d2]> (files w))) evs) path.
Proof.
  intros Hw c. simpl.
  destruct (decide (p1 = path)) as [->|H1];
    [rewrite lookup_insert_eq; discriminate | rewrite lookup_insert_ne by exact H1].
  destruct (decide (p2 = path)) as [->|H2];
    [rewrite lookup_insert_eq; discriminate | rewrite lookup_insert_ne by exact H2].
  apply Hw.
Qed.

Lemma added_task_json (id : number) (options : add_options) :
  add_status options <> OptFlag ->
  new_task id (add_title options) (added_status (add_status options)) =
  task_json (added_task id options).
Proof.
  intros Hflag. unfold added_task, new_task, task_json. cbn.
  destruct (add_status options) as [| |s]; [reflexivity | congruence |].
  cbn. destruct (str_is_empty s); reflexivity.
Qed.

(** [add] of a new title, in terms of tasks; the documents stay writable. *)
Lemma add_fresh_typed (w : world) (l : list task) (c : number)
  (options : add_options) :
  stored_tasks w l -> stored_counter w c ->
  writable w db_json -> writable w counter_json ->
  (forall t, t ∈ l -> task_title t <> add_title options) ->
  add_status options <> OptFlag ->
  exists w' c',
    add options w = (Ret tt, w') /\
    to_Z c' = (if to_Z c <? two53 then to_Z c + 1 else to_Z c)%Z /\
    stored_tasks w' (l ++ [added_task c' options]) /\
    stored_counter w' c' /\
    writable w' db_json /\ writable w' counter_json.
Proof.
  intros Hdb Hctr Wdb Wctr Hfresh Hflag.
  destruct (counter_up c) as (c' & Hup & Hc').
  pose proof (add_fresh_run w l c c' options Hdb Hctr Wdb Wctr Hfresh Hup) as Hrun.
  cbv zeta in Hrun. rewrite (added_task_json c' options Hflag) in Hrun.
  eexists _, c'. split; [exact Hrun|]. split; [exact Hc'|].
  split; [|split; [|split]].
  - apply readJSONFile_written; [simpl|constructor; apply plain_tasks].
    unfold tasks_json. rewrite map_app. apply lookup_insert_eq.
  - apply readJSONFile_written; [|apply plain_counter].
    simpl. rewrite lookup_insert_ne by exact db_counter_paths.
    apply lookup_insert_eq.
  - now apply writable_insert2.
  - now apply writable_insert2.
Qed.

(** [delete] of a stored id, in terms of tasks; the documents stay writable. *)
Lemma delete_first_typed (w : world) (l1 l2 : list task) (t : task) (c : number)
  (id : string) :
  stored_tasks w (l1 ++ t :: l2) -> stored_counter w c ->
  writable w db_json -> writable w counter_json ->
  (forall t', t' ∈ l1 -> parseInt id <> Some (JSVal (JNum (task_id t')))) ->
  parseInt id = Some (JSVal (JNum (task_id t))) ->
  exists w' c',
    delete (DeleteOptions id) w = (Ret tt, w') /\
    to_Z c' = (if - two53 <? to_Z c then to_Z c - 1 else to_Z c)%Z /\
    stored_tasks w' (l1 ++ l2) /\
    stored_counter w' c' /\
    writable w' db_json /\ writable w' counter_json.
Proof.
  intros Hdb Hctr Wdb Wctr Hl1 Ht.
  destruct (counter_down c) as (c' & Hdown & Hc').
  pose proof (delete_first_run w l1 l2 t c c' (DeleteOptions id)
                Hdb Hctr Wdb Wctr Hl1 Ht Hdown) as Hrun.
  cbv zeta in Hrun. eexists _, c'. split; [exact Hrun|]. split; [exact Hc'|].
  split; [|split; [|split]].
  - apply readJSONFile_written; [|constructor; apply plain_tasks].
    simpl. rewrite lookup_insert_ne by (apply not_eq_sym, db_counter_paths).
    apply lookup_insert_eq.
  - apply readJSONFile_written; [apply lookup_insert_eq | apply plain_counter].
  - now apply writable_insert2.
  - now apply writable_insert2.
Qed.

Lemma elem_of_map {A B : Type} (f : A -> B) (l : list A) (y : B) :
  y ∈ map f l <-> exists x, y = f x /\ x ∈ l.
Proof.
  rewrite list_elem_of_In, in_map_iff. split; intros (x & H1 & H2); exists x.
  - apply list_elem_of_In in H2. now split.
  - apply list_elem_of_In in H2. now split.
Qed.

Lemma NoDup_titles_snoc (l : list task) (t : task) :
  NoDup (map task_title l) ->
  (forall t', t' ∈ l -> task_title t' <> task_title t) ->
  NoDup (map task_title (l ++ [t])).
Proof.
  intros Hl Hfresh. rewrite map_app. apply NoDup_app. split; [exact Hl|]. split.
  - intros x Hx Hin. apply list_elem_of_singleton in Hin. subst x.
    apply elem_of_map in Hx as (t' & Heq & Ht').
    exact (Hfresh t' Ht' (eq_sym Heq)).
  - apply NoDup_singleton.
Qed.

(** X8.  [add] keeps the titles of the collection distinct: it either
    refuses the title and leaves the collection as it is, or appends a task
    with the given title, which no other task has. *)
Theorem add_keeps_titles_distinct (w : world) (l : list task) (c : number)
  (options : add_options) :
  stored_tasks w l -> stored_counter w c ->
  writable w db_json -> writable w counter_json ->
  add_status options <> OptFlag ->
  NoDup (map task_title l) ->
  exists w' l',
    add options w = (Ret tt, w') /\
    stored_tasks w' l' /\
    (l' = l \/ exists id, l' = l ++ [added_task id options]) /\
    NoDup (map task_title l').
Proof.
  intros Hdb Hctr Wdb Wctr Hflag Hnodup.
  destruct (existsb (fun t => String.eqb (task_title t) (add_title options)) l) eqn:E.
  - apply existsb_title in E.
    exists (said w [ELog [chalk Yellow msg_exists]]), l.
    split; [|split; [now apply stored_said | split; [now left | exact Hnodup]]].
    unfold add. apply try_catch_ret.
    rewrite (bind_ret _ _ _ _ _ Hdb).
    rewrite (bind_ret _ _ _ _ _ (Array_some_tasks _ l w)).
    rewrite (proj2 (existsb_title _ _) E). reflexivity.
  - assert (Hfresh : forall t, t ∈ l -> task_title t <> add_title options).
    { intros t Ht Heq.
      assert (existsb (fun t => String.eqb (task_title t) (add_title options)) l = true)
        by (apply existsb_title; eauto).
      congruence. }
    destruct (add_fresh_typed w l c options Hdb Hctr Wdb Wctr Hfresh Hflag)
      as (w' & c' & Hrun & _ & Hdb' & _).
    exists w', (l ++ [added_task c' options]).
    split; [exact Hrun|]. split; [exact Hdb'|]. split; [right; eauto|].
    now apply NoDup_titles_snoc.
Qed.

(** X9.  [add] of a new title followed by [delete] of the id it assigned,
    the counter plus one, gives back the collection and the counter,
    provided no stored task had that id already (it would be found
    first).  The new id [c'] is a number, so the counter is below [2^53]. *)
Theorem add_then_delete_restores (w : world) (l : list task) (c c' : number)
  (options : add_options) (id : string) :
  stored_tasks w l -> stored_counter w c ->
  writable w db_json -> writable w counter_json ->
  (forall t, t ∈ l -> task_title t <> add_title options) ->
  add_status options <> OptFlag ->
  to_Z c' = (to_Z c + 1)%Z ->
  parseInt id = Some (JSVal (JNum c')) ->
  (forall t, t ∈ l -> task_id t <> c') ->
  exists w1 w2,
    add options w = (Ret tt, w1) /\
    stored_tasks w1 (l ++ [added_task c' options]) /\ stored_counter w1 c' /\
    delete (DeleteOptions id) w1 = (Ret tt, w2) /\
    stored_tasks w2 l /\ stored_counter w2 c.
Proof.
  intros Hdb Hctr Wdb Wctr Hfresh Hflag Hc' Hid Hids.
  pose proof (to_Z_range c) as Hc. pose proof (to_Z_range c') as Hr.
  destruct (add_fresh_typed w l c options Hdb Hctr Wdb Wctr Hfresh Hflag)
    as (w1 & c1 & Hadd & Hc1 & Hdb1 & Hctr1 & Wdb1 & Wctr1).
  assert (c1 = c') as ->.
  { apply number_eq. destruct (Z.ltb_spec (to_Z c) two53); lia. }
  destruct (delete_first_typed w1 l [] (added_task c' options) c' id
              Hdb1 Hctr1 Wdb1 Wctr1) as (w2 & c2 & Hdel & Hc2 & Hdb2 & Hctr2 & _).
  - intros t Ht. rewrite Hid. intros [= E]. exact (Hids t Ht (eq_sym E)).
  - exact Hid.
  - assert (c2 = c) as ->.
    { apply number_eq. destruct (Z.ltb_spec (- two53) (to_Z c')); lia. }
    exists w1, w2. rewrite app_nil_r in Hdb2. auto 10.
Qed.

(** X10.  The counter goes down on [delete], so the next [add] assigns the
    value the counter had before the [delete], when that was above
    [-2^53]: an id is used again, and when a remaining task carries that
    value two tasks share an id. *)
Theorem delete_then_add_reuses_id (w : world) (l1 l2 : list task) (t : task)
  (c : number) (id : string) (options : add_options) :
  stored_tasks w (l1 ++ t :: l2) -> stored_counter w c ->
  writable w db_json -> writable w counter_json ->
  (forall t', t' ∈ l1 -> parseInt id <> Some (JSVal (JNum (task_id t')))) ->
  parseInt id = Some (JSVal (JNum (task_id t))) ->
  (forall t', t' ∈ l1 ++ l2 -> task_title t' <> add_title options) ->
  add_status options <> OptFlag ->
  (- two53 < to_Z c)%Z ->
  exists w1 w2,
    delete (DeleteOptions id) w = (Ret tt, w1) /\
    add options w1 = (Ret tt, w2) /\
    stored_tasks w2 ((l1 ++ l2) ++ [added_task c options]) /\
    stored_counter w2 c /\
    ((exists t', t' ∈ l1 ++ l2 /\ task_id t' = c) ->
     ~ NoDup (map task_id ((l1 ++ l2) ++ [added_task c options]))).
Proof.
  intros Hdb Hctr Wdb Wctr Hl1 Ht Hfresh Hflag Hc.
  pose proof (to_Z_range c) as Hr.
  destruct (delete_first_typed w l1 l2 t c id Hdb Hctr Wdb Wctr Hl1 Ht)
    as (w1 & c1 & Hdel & Hc1 & Hdb1 & Hctr1 & Wdb1 & Wctr1).
  apply Z.ltb_lt in Hc. rewrite Hc in Hc1.
  destruct (add_fresh_typed w1 (l1 ++ l2) c1 options
              Hdb1 Hctr1 Wdb1 Wctr1 Hfresh Hflag)
    as (w2 & c2 & Hadd & Hc2 & Hdb2 & Hctr2 & _).
  assert (c2 = c) as ->.
  { apply number_eq. destruct (Z.ltb_spec (to_Z c1) two53); lia. }
  exists w1, w2.
  repeat (split; [assumption|]).
  intros (t' & Ht' & Hid) Hnodup.
  rewrite map_app in Hnodup. apply NoDup_app in Hnodup as (_ & Hdisj & _).
  apply (Hdisj c).
  - apply elem_of_map. eauto.
  - simpl. now apply list_elem_of_singleton.
Qed.

Lemma following_length (c : Z) (n : nat) : length (following c n) = n.
Proof. revert c. induction n as [|n IH]; intros c; simpl; [|rewrite IH]; reflexivity. Qed.

(** X11.  A sequence of [add] with new, pairwise different titles appends
    one task for each, in the order of the invocations, with consecutive
    ids starting after the counter, and moves the counter to the last id,
    as long as that is at most [2^53]. *)
Theorem add_all_numbers_in_order (os : list add_options) :
  forall (w : world) (l : list task) (c : number),
  stored_tasks w l -> stored_counter w c ->
  writable w db_json -> writable w counter_json ->
  NoDup (map add_title os) ->
  (forall o t, o ∈ os -> t ∈ l -> task_title t <> add_title o) ->
  (forall o, o ∈ os -> add_status o <> OptFlag) ->
  (to_Z c + Z.of_nat (length os) <= two53)%Z ->
  exists w' ids c',
    add_all os w = (Ret tt, w') /\
    map to_Z ids = following (to_Z c) (length os) /\
    stored_tasks w' (l ++ added_tasks ids os) /\
    to_Z c' = (to_Z c + Z.of_nat (length os))%Z /\
    stored_counter w' c'.
Proof.
  induction os as [|o os IH];
    intros w l c Hdb Hctr Wdb Wctr Hnodup Hfresh Hflag Hbound.
  - exists w, [], c. simpl. rewrite app_nil_r, Z.add_0_r. auto.
  - apply NoDup_cons in Hnodup as [Hnew Hnodup].
    destruct (add_fresh_typed w l c o Hdb Hctr Wdb Wctr) as
      (w1 & c1 & Hadd & Hc1 & Hdb1 & Hctr1 & Wdb1 & Wctr1).
    { intros t Ht. apply (Hfresh o t); [left | exact Ht]. }
    { apply Hflag. left. }
    assert (Hone : to_Z c1 = (to_Z c + 1)%Z).
    { simpl length in Hbound. destruct (Z.ltb_spec (to_Z c) two53); lia. }
    destruct (IH w1 (l ++ [added_task c1 o]) c1 Hdb1 Hctr1 Wdb1 Wctr1 Hnodup)
      as (w' & ids & c' & Hall & Hids & Hdb' & Hc' & Hctr').
    { intros o' t Ho' Ht. apply elem_of_app in Ht as [Ht|Ht].
      - apply (Hfresh o' t); [now right | exact Ht].
      - apply list_elem_of_singleton in Ht. subst t. simpl.
        intros Heq. apply Hnew. rewrite Heq. apply elem_of_map. eauto. }
    { intros o' Ho'. apply Hflag. now right. }
    { simpl length in Hbound. lia. }
    exists w', (c1 :: ids), c'. split; [|split; [|split; [|split]]].
    + cbn [add_all]. now rewrite (bind_ret _ _ _ _ _ Hadd).
    + cbn [map length following]. now rewrite Hids, Hone.
    + cbn [added_tasks]. now rewrite <- app_assoc in Hdb'.
    + rewrite Hc', Hone. simpl length. lia.
    + exact Hctr'.
Qed.

(** ** The id argument *)

Lemma digit_value_not_digit (c : ascii) :
  is_digit c = false -> digit_value 10 c = None.
Proof. destruct c as [[] [] [] [] [] [] [] []]; cbv; congruence. Qed.

Lemma read_int_stop (rest : string) (acc : option N) :
  match rest with String c _ => is_digit c = false | EmptyString => True end ->
  read_int 10 rest acc = acc.
Proof.
  destruct rest as [|c r]; [reflexivity|]. intros Hc. simpl.
  now rewrite (digit_value_not_digit c Hc).
Qed.

Lemma read_int_pos (rest : string) :
  match rest with String c _ => is_digit c = false | EmptyString => True end ->
  forall u acc,
    read_int 10 (string_of_uint u +:+ rest) (Some (Npos acc)) =
    Some (Npos (Pos.of_uint_acc u acc)).
Proof.
  intros Hrest. induction u; intros acc;
    [apply (read_int_stop rest _ Hrest) | ..];
    cbn [string_of_uint Pos.of_uint_acc]; rewrite append_cons;
    cbn [read_int]; 
    match goal with
    | |- context [digit_value 10 ?c] =>
        let v := eval vm_compute in (digit_value 10 c) in
        change (digit_value 10 c) with v
    end; cbv iota; rewrite <- IHu; do 2 f_equal; lia.
Qed.

Lemma read_int_zero (rest : string) :
  match rest with String c _ => is_digit c = false | EmptyString => True end ->
  forall u,
    read_int 10 (string_of_uint u +:+ rest) (Some 0%N) = Some (N.of_uint u).
Proof.
  intros Hrest. induction u;
    [apply (read_int_stop rest _ Hrest) | ..];
    cbn [string_of_uint]; rewrite append_cons; cbn [read_int];
    match goal with
    | |- context [digit_value 10 ?c] =>
        let v := eval vm_compute in (digit_value 10 c) in
        change (digit_value 10 c) with v
    end; cbv iota;
    first [exact IHu | exact (read_int_pos rest Hrest u _)].
Qed.

Lemma read_int_numeral (rest : string) (u : uint) :
  match rest with String c _ => is_digit c = false | EmptyString => True end ->
  u <> Nil ->
  read_int 10 (string_of_uint u +:+ rest) None = Some (N.of_uint u).
Proof.
  intros Hrest Hu. destruct u; [congruence | ..];
    cbn [string_of_uint]; rewrite append_cons; cbn [read_int];
    match goal with
    | |- context [digit_value 10 ?c] =>
        let v := eval vm_compute in (digit_value 10 c) in
        change (digit_value 10 c) with v
    end; cbv iota;
    first [exact (read_int_zero rest Hrest u) | exact (read_int_pos rest Hrest u _)].
Qed.

Lemma parseInt_decimal_digits (negative : bool) (c : ascii) (s : string) :
  is_digit c = true ->
  Ascii.eqb c "0" && starts_hex_mark s = false ->
  parseInt (if negative then String "-" (String c s) else String c s) =
  match read_int 10 (String c s) None with
  | None => Some JSNaN
  | Some n =>
      if negative && (n =? 0)%N then None
      else option_map (fun x => JSVal (JNum x))
             (round_to_number (if negative then (- Z.of_N n)%Z else Z.of_N n))
  end.
Proof.
  intros Hc Hhex.
  assert (Hc' : is_str_ws c = false /\ Ascii.eqb c "-" = false /\ Ascii.eqb c "+" = false)
    by (destruct c as [[] [] [] [] [] [] [] []]; cbv in Hc |- *; auto; discriminate).
  destruct Hc' as (Hws & Hminus & Hplus).
  assert (Hradix :
            match String c s with
            | String c0 (String x r) =>
                if Ascii.eqb c0 "0" && (Ascii.eqb x "x" || Ascii.eqb x "X")
                then (16%N, r) else (10%N, String c s)
            | _ => (10%N, String c s)
            end = (10%N, String c s)).
  { destruct s as [|x r]; [reflexivity|]. unfold starts_hex_mark in Hhex.
    now rewrite Hhex. }
  unfold parseInt. destruct negative.
  - cbn [trim_start is_str_ws]. 
    change (is_str_ws "-") with false. cbv iota.
    change (Ascii.eqb "-" "-") with true. cbv iota.
    rewrite Hradix. reflexivity.
  - cbn [trim_start]. rewrite Hws, Hminus, Hplus, Hradix. reflexivity.
Qed.

Lemma numeral_head (p : positive) :
  exists c s, string_of_uint (Pos.to_uint p) = String c s /\
              is_digit c = true /\ Ascii.eqb c "0" = false.
Proof.
  pose proof (no_leading_zero_pos p) as Hz.
  pose proof (DecimalPos.Unsigned.of_to p) as Hof.
  pose proof (DecimalPos.Unsigned.to_uint_nonnil p) as Hnil.
  destruct (Pos.to_uint p) as [|u|u|u|u|u|u|u|u|u|u]; [congruence | | ..];
    try (cbn [string_of_uint]; eexists _, _; split; [reflexivity|];
         split; reflexivity).
  destruct u; simpl in Hz; discriminate.
Qed.

Lemma ends_decimal_no_digit (n : Z) (rest : string) :
  ends_decimal n rest = true ->
  match rest with String c _ => is_digit c = false | EmptyString => True end.
Proof.
  destruct rest as [|c r]; [trivial|]. simpl.
  destruct (is_digit c); [discriminate | reflexivity].
Qed.

(** [parseInt] of the decimal numeral of any integer, followed by a text
    that does not continue it: the double nearest to the integer. *)
Lemma parseInt_decimal (n : Z) (rest : string) :
  ends_decimal n rest = true ->
  parseInt (decimal n +:+ rest) =
  option_map (fun x => JSVal (JNum x)) (round_to_number n).
Proof.
  intros Hend. pose proof (ends_decimal_no_digit n rest Hend) as Hrest.
  destruct n as [|p|p].
  - change (decimal 0 +:+ rest) with (String "0" rest).
    rewrite (parseInt_decimal_digits false "0" rest eq_refl).
    + change (String "0" rest) with (string_of_uint (D0 Nil) +:+ rest).
      rewrite read_int_numeral by (auto; discriminate). reflexivity.
    + destruct rest as [|c r]; [reflexivity|]. simpl in Hend |- *.
      destruct (is_digit c); [discriminate|].
      destruct (Ascii.eqb c "x" || Ascii.eqb c "X"); [discriminate | reflexivity].
  - destruct (numeral_head p) as (c & s & Hs & Hc & Hzero).
    cbn [decimal]. rewrite Hs, append_cons.
    rewrite (parseInt_decimal_digits false c (s +:+ rest) Hc)
      by (now rewrite Hzero).
    rewrite <- append_cons, <- Hs.
    rewrite read_int_numeral
      by (auto; apply DecimalPos.Unsigned.to_uint_nonnil).
    change (N.of_uint (Pos.to_uint p)) with (Pos.of_uint (Pos.to_uint p)).
    now rewrite DecimalPos.Unsigned.of_to.
  - destruct (numeral_head p) as (c & s & Hs & Hc & Hzero).
    cbn [decimal]. rewrite append_cons, Hs, append_cons.
    rewrite (parseInt_decimal_digits true c (s +:+ rest) Hc)
      by (now rewrite Hzero).
    rewrite <- append_cons, <- Hs.
    rewrite read_int_numeral
      by (auto; apply DecimalPos.Unsigned.to_uint_nonnil).
    change (N.of_uint (Pos.to_uint p)) with (Pos.of_uint (Pos.to_uint p)).
    now rewrite DecimalPos.Unsigned.of_to.
Qed.

(** X12.  [parseInt] reads the decimal numeral of a number back, and
    ignores what follows it: an id argument such as ["2abc"] designates the
    id 2.  What follows must not start with a digit, nor with [x] or [X]
    after a lone [0], which would select radix 16. *)
Theorem parseInt_of_numeral (n : number) (rest : string) :
  ends_decimal (to_Z n) rest = true ->
  parseInt (Number_toString n +:+ rest) = Some (JSVal (JNum n)).
Proof.
  intros Hend. unfold Number_toString.
  rewrite (parseInt_decimal _ _ Hend), round_to_number_exact. reflexivity.
Qed.

(** ** Titles under [edit] *)

(** X13.  [edit] does not look at the other titles: it gives a task the
    title of another task, and the collection then holds that title
    twice. *)
Theorem edit_can_duplicate_title (w : world) (l1 l2 : list task) (t other : task)
  (id : string) :
  stored_tasks w (l1 ++ t :: l2) -> writable w db_json ->
  (forall t', t' ∈ l1 -> parseInt id <> Some (JSVal (JNum (task_id t')))) ->
  parseInt id = Some (JSVal (JNum (task_id t))) ->
  other ∈ l1 ++ l2 -> task_title other <> "" ->
  exists w',
    edit (EditOptions (task_title other) id OptAbsent) w = (Ret tt, w') /\
    stored_tasks w'
      (l1 ++ Task (task_id t) (task_title other) (task_status t) :: l2) /\
    ~ NoDup (map task_title
               (l1 ++ Task (task_id t) (task_title other) (task_status t) :: l2)).
Proof.
  intros Hdb Wdb Hl1 Ht Hother Htitle.
  pose proof (edit_first_run w l1 l2 t (EditOptions (task_title other) id OptAbsent)
                Hdb Wdb Hl1 Ht) as Hrun.
  cbv zeta in Hrun.
  assert (Hedited :
            edited_task t (EditOptions (task_title other) id OptAbsent) =
            task_json (Task (task_id t) (task_title other) (task_status t))).
  { unfold edited_task. cbn [edit_title edit_status].
    destruct (task_title other); [congruence | reflexivity]. }
  rewrite Hedited in Hrun. eexists. split; [exact Hrun|]. split.
  - apply readJSONFile_written; [|constructor; apply plain_tasks].
    unfold tasks_json. rewrite map_app. apply lookup_insert_eq.
  - rewrite map_app. cbn [map task_title]. intros Hnodup.
    apply NoDup_app in Hnodup as (_ & Hdisj & Htail).
    apply NoDup_cons in Htail as [Hnotin _].
    apply elem_of_app in Hother as [Hin|Hin].
    + apply (Hdisj (task_title other)); [apply elem_of_map; eauto | left].
    + apply Hnotin. apply elem_of_map. eauto.
Qed.

(** ** The further properties at work on the sample stores *)

Lemma sample_first_task_only (id : string) (n : number) :
  to_Z n <> 1%Z -> parseInt id = Some (JSVal (JNum n)) ->
  forall t', t' ∈ [Task 1 "A" "todo"] -> parseInt id <> Some (JSVal (JNum (task_id t'))).
Proof.
  intros Hn Hid t Ht. apply list_elem_of_singleton in Ht. subst t.
  rewrite Hid. simpl. intros [= ->]. now apply Hn.
Qed.

Lemma edit_first_match_witness :
  stored_tasks sample_world ([Task 1 "A" "todo"] ++ Task 2 "B" "done" :: []) /\
  writable sample_world db_json /\
  (forall t', t' ∈ [Task 1 "A" "todo"] -> parseInt "2" <> Some (JSVal (JNum (task_id t')))) /\
  parseInt "2" = Some (JSVal (JNum 2)) /\
  exists w',
    edit (EditOptions "" "2" (OptStr "doing")) sample_world = (Ret tt, w') /\
    stored_tasks w' [Task 1 "A" "todo"; Task 2 "B" "doing"] /\
    files w' !! counter_json = files sample_world !! counter_json.
Proof.
  assert (H1 : stored_tasks sample_world ([Task 1 "A" "todo"] ++ Task 2 "B" "done" :: []))
    by (vm_compute; reflexivity).
  assert (H2 : parseInt "2" = Some (JSVal (JNum 2))) by reflexivity.
  assert (H3 := sample_first_task_only "2" 2 ltac:(discriminate) H2).
  repeat (split; [first [exact H1 | exact H2 | exact H3 | apply sample_writable]|]).
  destruct (edit_first_match sample_world [Task 1 "A" "todo"] [] (Task 2 "B" "done")
              (EditOptions "" "2" (OptStr "doing")) H1 (sample_writable _) H3 H2)
    as (w' & data & Hrun & Hdb & _ & Hctr).
  exists w'. repeat split; assumption.
Defined.

Lemma filter_without_status_shows_nothing_witness :
  stored_tasks sample_world sample_tasks /\
  filter_tasks (FilterOptions None) sample_world = (Ret tt, sample_world).
Proof.
  assert (H1 : stored_tasks sample_world sample_tasks) by (vm_compute; reflexivity).
  split; [exact H1|].
  exact (filter_without_status_shows_nothing sample_world sample_tasks H1).
Defined.

Lemma non_array_document_fails_witness :
  loads object_world db_json empty_db (JObj []) /\
  is_array (JObj []) = false /\
  all_fail_with object_world TypeError.
Proof.
  assert (H1 : loads object_world db_json empty_db (JObj [])) by reflexivity.
  assert (H2 : is_array (JObj []) = false) by reflexivity.
  split; [exact H1|]. split; [exact H2|].
  exact (proj1 (non_array_document_fails object_world (JObj []) H1 H2)).
Defined.

Lemma system_error_is_rethrown_witness :
  files unreadable_world !! db_json = Some (Faulty "EISDIR") /\
  "EISDIR" <> "ENOENT" /\
  readJSONFile db_json empty_db unreadable_world =
    (Throw (SystemError "EISDIR"), unreadable_world) /\
  all_fail_with unreadable_world (SystemError "EISDIR").
Proof.
  assert (H1 : files unreadable_world !! db_json = Some (Faulty "EISDIR"))
    by reflexivity.
  assert (H2 : "EISDIR" <> "ENOENT") by discriminate.
  split; [exact H1|]. split; [exact H2|].
  destruct (system_error_is_rethrown unreadable_world db_json "EISDIR" H1 H2)
    as [Hread Hall].
  split; [apply Hread | apply Hall; reflexivity].
Defined.

Lemma blank_document_is_malformed_witness :
  files blank_world !! db_json = Some (File " ") /\
  " " <> "" /\ skip_ws " " = "" /\
  JSON_parse " " = PSyntax /\
  readJSONFile db_json empty_db blank_world = (Throw SyntaxError, blank_world).
Proof.
  assert (H1 : files blank_world !! db_json = Some (File " ")) by reflexivity.
  assert (H2 : " " <> "") by discriminate.
  assert (H3 : skip_ws " " = "") by reflexivity.
  repeat (split; [first [exact H1 | exact H2 | exact H3]|]).
  exact (blank_document_is_malformed blank_world db_json " " empty_db H1 H2 H3).
Defined.

Lemma written_value_reads_back_witness :
  writable empty_world counter_json /\
  plain_json (counter_doc 5) /\
  exists w',
    writeFile counter_json (JSON_stringify (counter_doc 5)) empty_world = (Ret tt, w') /\
    readJSONFile counter_json zero_counter w' = (Ret (counter_doc 5), w').
Proof.
  assert (H1 : writable empty_world counter_json)
    by (intros c H; vm_compute in H; discriminate).
  assert (H2 : plain_json (counter_doc 5)) by apply plain_counter.
  split; [exact H1|]. split; [exact H2|].
  exact (written_value_reads_back empty_world counter_json (counter_doc 5)
           zero_counter H1 H2).
Defined.

Lemma sample_titles_distinct : NoDup (map task_title sample_tasks).
Proof.
  simpl. rewrite !NoDup_cons, !not_elem_of_cons.
  repeat split; try discriminate; try apply not_elem_of_nil. apply NoDup_nil_2.
Qed.

Lemma sample_fresh (title : string) :
  title <> "A" -> title <> "B" ->
  forall t, t ∈ sample_tasks -> task_title t <> title.
Proof.
  intros HA HB t Ht. unfold sample_tasks in Ht.
  apply elem_of_cons in Ht as [->|Ht]; [simpl; congruence|].
  apply list_elem_of_singleton in Ht. subst t. simpl. congruence.
Qed.

Lemma add_keeps_titles_distinct_witness :
  stored_tasks sample_world sample_tasks /\ stored_counter sample_world 2 /\
  writable sample_world db_json /\ writable sample_world counter_json /\
  OptStr "doing" <> OptFlag /\
  NoDup (map task_title sample_tasks) /\
  exists w' l',
    add (AddOptions "B" (OptStr "doing")) sample_world = (Ret tt, w') /\
    stored_tasks w' l' /\ NoDup (map task_title l').
Proof.
  assert (H1 : stored_tasks sample_world sample_tasks) by (vm_compute; reflexivity).
  assert (H2 : stored_counter sample_world 2) by (vm_compute; reflexivity).
  assert (H3 : OptStr "doing" <> OptFlag) by discriminate.
  repeat (split; [first [exact H1 | exact H2 | exact H3 | apply sample_writable
                        | apply sample_titles_distinct]|]).
  destruct (add_keeps_titles_distinct sample_world sample_tasks 2
              (AddOptions "B" (OptStr "doing")) H1 H2
              (sample_writable _) (sample_writable _) H3 sample_titles_distinct)
    as (w' & l' & Hrun & Hdb & _ & Hnodup).
  exists w', l'. repeat split; assumption.
Defined.

Lemma add_then_delete_restores_witness :
  stored_tasks sample_world sample_tasks /\ stored_counter sample_world 2 /\
  writable sample_world db_json /\ writable sample_world counter_json /\
  (forall t, t ∈ sample_tasks -> task_title t <> "C") /\
  OptAbsent <> OptFlag /\
  to_Z 3 = (to_Z 2 + 1)%Z /\
  parseInt "3" = Some (JSVal (JNum 3)) /\
  (forall t, t ∈ sample_tasks -> task_id t <> 3%number) /\
  exists w1 w2,
    add (AddOptions "C" OptAbsent) sample_world = (Ret tt, w1) /\
    stored_tasks w1 (sample_tasks ++ [Task 3 "C" "todo"]) /\ stored_counter w1 3 /\
    delete (DeleteOptions "3") w1 = (Ret tt, w2) /\
    stored_tasks w2 sample_tasks /\ stored_counter w2 2.
Proof.
  assert (H1 : stored_tasks sample_world sample_tasks) by (vm_compute; reflexivity).
  assert (H2 : stored_counter sample_world 2) by (vm_compute; reflexivity).
  assert (H3 : forall t, t ∈ sample_tasks -> task_title t <> "C")
    by (apply sample_fresh; discriminate).
  assert (H4 : OptAbsent <> OptFlag) by discriminate.
  assert (H5 : to_Z 3 = (to_Z 2 + 1)%Z) by reflexivity.
  assert (H6 : parseInt "3" = Some (JSVal (JNum 3))) by reflexivity.
  assert (H7 : forall t, t ∈ sample_tasks -> task_id t <> 3%number).
  { intros t Ht. unfold sample_tasks in Ht.
    apply elem_of_cons in Ht as [->|Ht]; [simpl; discriminate|].
    apply list_elem_of_singleton in Ht. subst t. simpl. discriminate. }
  repeat (split; [first [exact H1 | exact H2 | exact H3 | exact H4 | exact H5
                        | exact H6 | exact H7 | apply sample_writable]|]).
  exact (add_then_delete_restores sample_world sample_tasks 2 3
           (AddOptions "C" OptAbsent) "3" H1 H2
           (sample_writable _) (sample_writable _) H3 H4 H5 H6 H7).
Defined.

Lemma delete_then_add_reuses_id_witness :
  stored_tasks sample_world ([] ++ Task 1 "A" "todo" :: [Task 2 "B" "done"]) /\
  stored_counter sample_world 2 /\
  writable sample_world db_json /\ writable sample_world counter_json /\
  (forall t', t' ∈ [] -> parseInt "1" <> Some (JSVal (JNum (task_id t')))) /\
  parseInt "1" = Some (JSVal (JNum 1)) /\
  (forall t', t' ∈ [] ++ [Task 2 "B" "done"] -> task_title t' <> "C") /\
  OptAbsent <> OptFlag /\
  (- two53 < to_Z 2)%Z /\
  exists w1 w2,
    delete (DeleteOptions "1") sample_world = (Ret tt, w1) /\
    add (AddOptions "C" OptAbsent) w1 = (Ret tt, w2) /\
    stored_tasks w2 [Task 2 "B" "done"; Task 2 "C" "todo"] /\
    stored_counter w2 2 /\
    ~ NoDup (map task_id [Task 2 "B" "done"; Task 2 "C" "todo"]).
Proof.
  assert (H1 : stored_tasks sample_world ([] ++ Task 1 "A" "todo" :: [Task 2 "B" "done"]))
    by (vm_compute; reflexivity).
  assert (H2 : stored_counter sample_world 2) by (vm_compute; reflexivity).
  assert (H3 : forall t' : task,
             t' ∈ [] -> parseInt "1" <> Some (JSVal (JNum (task_id t'))))
    by (intros t Ht; now apply elem_of_nil in Ht).
  assert (H4 : parseInt "1" = Some (JSVal (JNum 1))) by reflexivity.
  assert (H5 : forall t', t' ∈ [] ++ [Task 2 "B" "done"] -> task_title t' <> "C").
  { intros t Ht. apply list_elem_of_singleton in Ht. subst t. discriminate. }
  assert (H6 : OptAbsent <> OptFlag) by discriminate.
  assert (H7 : (- two53 < to_Z 2)%Z) by reflexivity.
  repeat (split; [first [exact H1 | exact H2 | exact H3 | exact H4 | exact H5
                        | exact H6 | exact H7 | apply sample_writable]|]).
  destruct (delete_then_add_reuses_id sample_world [] [Task 2 "B" "done"]
              (Task 1 "A" "todo") 2 "1" (AddOptions "C" OptAbsent)
              H1 H2 (sample_writable _) (sample_writable _) H3 H4 H5 H6 H7)
    as (w1 & w2 & Hdel & Hadd & Hdb & Hctr & Hdup).
  exists w1, w2. split; [exact Hdel|]. split; [exact Hadd|].
  split; [exact Hdb|]. split; [exact Hctr|]. apply Hdup.
  exists (Task 2 "B" "done"). split; [left | reflexivity].
Defined.

Lemma add_all_numbers_in_order_witness :
  stored_tasks sample_world sample_tasks /\ stored_counter sample_world 2 /\
  writable sample_world db_json /\ writable sample_world counter_json /\
  NoDup (map add_title [AddOptions "C" OptAbsent; AddOptions "D" (OptStr "doing")]) /\
  (to_Z 2 + Z.of_nat 2 <= two53)%Z /\
  exists w' ids c',
    add_all [AddOptions "C" OptAbsent; AddOptions "D" (OptStr "doing")] sample_world
    = (Ret tt, w') /\
    map to_Z ids = [3; 4]%Z /\
    stored_tasks w'
      (sample_tasks ++
       added_tasks ids [AddOptions "C" OptAbsent; AddOptions "D" (OptStr "doing")]) /\
    to_Z c' = 4%Z /\
    stored_counter w' c'.
Proof.
  assert (H1 : stored_tasks sample_world sample_tasks) by (vm_compute; reflexivity).
  assert (H2 : stored_counter sample_world 2) by (vm_compute; reflexivity).
  assert (H3 : NoDup (map add_title
                        [AddOptions "C" OptAbsent; AddOptions "D" (OptStr "doing")])).
  { simpl. rewrite !NoDup_cons, !not_elem_of_cons.
    repeat split; try discriminate; try apply not_elem_of_nil. apply NoDup_nil_2. }
  assert (H4 : forall o t,
             o ∈ [AddOptions "C" OptAbsent; AddOptions "D" (OptStr "doing")] ->
             t ∈ sample_tasks -> task_title t <> add_title o).
  { intros o t Ho. apply elem_of_cons in Ho as [->|Ho];
      [|apply list_elem_of_singleton in Ho; subst o];
      apply sample_fresh; discriminate. }
  assert (H5 : forall o,
             o ∈ [AddOptions "C" OptAbsent; AddOptions "D" (OptStr "doing")] ->
             add_status o <> OptFlag).
  { intros o Ho. apply elem_of_cons in Ho as [->|Ho];
      [|apply list_elem_of_singleton in Ho; subst o]; discriminate. }
  assert (H6 : (to_Z 2 + Z.of_nat 2 <= two53)%Z) by (vm_compute; discriminate).
  repeat (split; [first [exact H1 | exact H2 | exact H3 | exact H6
                        | apply sample_writable]|]).
  exact (add_all_numbers_in_order
           [AddOptions "C" OptAbsent; AddOptions "D" (OptStr "doing")]
           sample_world sample_tasks 2 H1 H2
           (sample_writable _) (sample_writable _) H3 H4 H5 H6).
Defined.

Lemma parseInt_of_numeral_witness :
  ends_decimal (to_Z 2) "abc" = true /\ parseInt "2abc" = Some (JSVal (JNum 2)).
Proof.
  assert (H1 : ends_decimal (to_Z 2) "abc" = true) by reflexivity.
  split; [exact H1|]. exact (parseInt_of_numeral 2 "abc" H1).
Defined.

Lemma edit_can_duplicate_title_witness :
  stored_tasks sample_world ([Task 1 "A" "todo"] ++ Task 2 "B" "done" :: []) /\
  writable sample_world db_json /\
  (forall t', t' ∈ [Task 1 "A" "todo"] -> parseInt "2" <> Some (JSVal (JNum (task_id t')))) /\
  parseInt "2" = Some (JSVal (JNum 2)) /\
  Task 1 "A" "todo" ∈ [Task 1 "A" "todo"] ++ [] /\
  "A" <> "" /\
  exists w',
    edit (EditOptions "A" "2" OptAbsent) sample_world = (Ret tt, w') /\
    stored_tasks w' [Task 1 "A" "todo"; Task 2 "A" "done"] /\
    ~ NoDup (map task_title [Task 1 "A" "todo"; Task 2 "A" "done"]).
Proof.
  assert (H1 : stored_tasks sample_world ([Task 1 "A" "todo"] ++ Task 2 "B" "done" :: []))
    by (vm_compute; reflexivity).
  assert (H2 : parseInt "2" = Some (JSVal (JNum 2))) by reflexivity.
  assert (H3 := sample_first_task_only "2" 2 ltac:(discriminate) H2).
  assert (H4 : Task 1 "A" "todo" ∈ [Task 1 "A" "todo"] ++ []) by left.
  assert (H5 : "A" <> "") by discriminate.
  repeat (split; [first [exact H1 | exact H2 | exact H3 | exact H4 | exact H5
                        | apply sample_writable]|]).
  exact (edit_can_duplicate_title sample_world [Task 1 "A" "todo"] []
           (Task 2 "B" "done") (Task 1 "A" "todo") "2"
           H1 (sample_writable _) H3 H2 H4 H5).
Defined.
